(** * privacyidea/lib/crypto.py: a shallow embedding and its properties

    The embedding follows the Python 2 semantics the module is written for
    ([ord(output[-1])], [chr(n) * n] appended to a byte string): a Python
    [str] is a byte string, modelled as [list byte].  Exceptions are values
    of [exn]; code that talks to the security module runs in a state monad
    over the process-wide [world].  PyCrypto's block cipher, the standard
    base64 codec, HMAC, SHA-256 and RSA are interfaces (type classes) whose
    laws are stated separately; binary64 arithmetic is Rocq's [SpecFloat]. *)

From Stdlib Require Import String.
From Stdlib Require Import ZArith NArith List Bool Lia.
From Stdlib Require Import Strings.Byte.
From Stdlib Require Import Floats.SpecFloat.
From Stdlib Require Import DecimalN.
Import ListNotations.
Open Scope Z_scope.

(** ** Python values and exceptions *)

Abbreviation bytes := (list byte).

Inductive exn : Type :=
| HSMException (msg : string)
| ValueError (msg : string)
| TypeError (msg : string)
| IndexError (msg : string)
| AttributeError (msg : string)
| OverflowError (msg : string)
| ZeroDivisionError (msg : string)
| PaddingError.

Inductive result (A : Type) : Type :=
| Ok (a : A)
| Raise (e : exn).
Arguments Ok {A} a.
Arguments Raise {A} e.

Definition rbind {A B} (r : result A) (k : A -> result B) : result B :=
  match r with
  | Ok a => k a
  | Raise e => Raise e
  end.

Declare Scope result_scope.
Delimit Scope result_scope with result.
Notation "x <- r ;; k" := (rbind r (fun x => k))
  (at level 61, r at next level, right associativity) : result_scope.
Open Scope result_scope.

(** [len(s)] as a Python integer. *)
Definition len {A} (l : list A) : Z := Z.of_nat (length l).

(** [s[0:stop]] for a possibly negative [stop]: a negative bound counts from
    the end and is clamped at 0, a bound past the end is clamped at [len]. *)
Definition slice_to {A} (l : list A) (stop : Z) : list A :=
  let stop' := if stop <? 0 then Z.max 0 (stop + len l) else Z.min stop (len l) in
  firstn (Z.to_nat stop') l.

(** [s[start:]] for a non-negative [start]. *)
Definition slice_from {A} (l : list A) (start : nat) : list A := skipn start l.

(** [s[-1]]: the last element, [IndexError] on the empty string. *)
Definition last_item (s : bytes) : result byte :=
  match rev s with
  | [] => Raise (IndexError "string index out of range")
  | b :: _ => Ok b
  end.

Definition ord (b : byte) : Z := Z.of_N (Byte.to_N b).

Definition chr (n : Z) : result byte :=
  if (n <? 0) || (255 <? n) then Raise (ValueError "chr() arg not in range(256)")
  else match Byte.of_N (Z.to_N n) with
       | Some b => Ok b
       | None => Raise (ValueError "chr() arg not in range(256)")
       end.

(** [c * n] for a one-character string [c]. *)
Definition str_mul (c : byte) (n : Z) : bytes := repeat c (Z.to_nat n).

(** ** binascii.hexlify / unhexlify and int(s, 16) *)

Definition hexdigits : bytes :=
  [x30; x31; x32; x33; x34; x35; x36; x37; x38; x39; x61; x62; x63; x64; x65; x66].

Definition hexdigit (n : N) : byte := nth (N.to_nat n) hexdigits x30.

Definition hexlify (s : bytes) : bytes :=
  flat_map (fun b => [hexdigit (Byte.to_N b / 16); hexdigit (Byte.to_N b mod 16)]) s.

Definition hexval (c : byte) : option N :=
  match c with
  | x30 => Some 0%N | x31 => Some 1%N | x32 => Some 2%N | x33 => Some 3%N
  | x34 => Some 4%N | x35 => Some 5%N | x36 => Some 6%N | x37 => Some 7%N
  | x38 => Some 8%N | x39 => Some 9%N
  | x61 | x41 => Some 10%N | x62 | x42 => Some 11%N | x63 | x43 => Some 12%N
  | x64 | x44 => Some 13%N | x65 | x45 => Some 14%N | x66 | x46 => Some 15%N
  | _ => None
  end.

Fixpoint unhex_pairs (s : bytes) : result bytes :=
  match s with
  | h :: l :: rest =>
      match hexval h, hexval l with
      | Some a, Some b =>
          match Byte.of_N (16 * a + b) with
          | Some c => r <- unhex_pairs rest ;; Ok (c :: r)
          | None => Raise (TypeError "Non-hexadecimal digit found")
          end
      | _, _ => Raise (TypeError "Non-hexadecimal digit found")
      end
  | _ => Ok []
  end.

Definition unhexlify (s : bytes) : result bytes :=
  if Nat.odd (length s) then Raise (TypeError "Odd-length string")
  else unhex_pairs s.

Fixpoint hex_digits_value (acc : N) (s : bytes) : option N :=
  match s with
  | [] => Some acc
  | c :: rest =>
      match hexval c with
      | Some d => hex_digits_value (16 * acc + d) rest
      | None => None
      end
  end.

(** [int(s, 16)] on a string of hexadecimal digits (the only strings the
    module passes are outputs of [hexlify]). *)
Definition int16 (s : bytes) : result Z :=
  match s with
  | [] => Raise (ValueError "invalid literal for int() with base 16")
  | _ => match hex_digits_value 0 s with
         | Some n => Ok (Z.of_N n)
         | None => Raise (ValueError "invalid literal for int() with base 16")
         end
  end.

(** The unsigned big-endian value of a byte string. *)
Definition be_value (s : bytes) : N :=
  fold_left (fun acc b => (256 * acc + Byte.to_N b)%N) s 0%N.

(** ** Decimal strings: "{0:d}".format(n), str(n) and long(s) *)

Fixpoint bytes_of_uint (d : Decimal.uint) : bytes :=
  match d with
  | Decimal.Nil => []
  | Decimal.D0 d => x30 :: bytes_of_uint d
  | Decimal.D1 d => x31 :: bytes_of_uint d
  | Decimal.D2 d => x32 :: bytes_of_uint d
  | Decimal.D3 d => x33 :: bytes_of_uint d
  | Decimal.D4 d => x34 :: bytes_of_uint d
  | Decimal.D5 d => x35 :: bytes_of_uint d
  | Decimal.D6 d => x36 :: bytes_of_uint d
  | Decimal.D7 d => x37 :: bytes_of_uint d
  | Decimal.D8 d => x38 :: bytes_of_uint d
  | Decimal.D9 d => x39 :: bytes_of_uint d
  end.

Definition format_d (n : Z) : bytes :=
  match n with
  | Zneg p => x2d :: bytes_of_uint (N.to_uint (Npos p))
  | _ => bytes_of_uint (N.to_uint (Z.to_N n))
  end.

Fixpoint uint_of_bytes (s : bytes) : option Decimal.uint :=
  match s with
  | [] => Some Decimal.Nil
  | c :: rest =>
      match uint_of_bytes rest with
      | None => None
      | Some d =>
          match c with
          | x30 => Some (Decimal.D0 d) | x31 => Some (Decimal.D1 d)
          | x32 => Some (Decimal.D2 d) | x33 => Some (Decimal.D3 d)
          | x34 => Some (Decimal.D4 d) | x35 => Some (Decimal.D5 d)
          | x36 => Some (Decimal.D6 d) | x37 => Some (Decimal.D7 d)
          | x38 => Some (Decimal.D8 d) | x39 => Some (Decimal.D9 d)
          | _ => None
          end
      end
  end.

(** [long(s)] on a string: an optional minus sign and decimal digits. *)
Definition long (s : bytes) : result Z :=
  let bad := Raise (ValueError "invalid literal for long() with base 10") in
  match s with
  | [] => bad
  | [x2d] => bad
  | x2d :: rest =>
      match uint_of_bytes rest with
      | Some d => Ok (- Z.of_N (N.of_uint d))
      | None => bad
      end
  | _ =>
      match uint_of_bytes s with
      | Some d => Ok (Z.of_N (N.of_uint d))
      | None => bad
      end
  end.

Definition is_digit (c : byte) : bool :=
  match c with
  | x30 | x31 | x32 | x33 | x34 | x35 | x36 | x37 | x38 | x39 => true
  | _ => false
  end.

(** ** Bytewise exclusive or *)

Definition byte_xor (a b : byte) : byte :=
  let '(a0, (a1, (a2, (a3, (a4, (a5, (a6, a7))))))) := Byte.to_bits a in
  let '(b0, (b1, (b2, (b3, (b4, (b5, (b6, b7))))))) := Byte.to_bits b in
  Byte.of_bits (xorb a0 b0, (xorb a1 b1, (xorb a2 b2, (xorb a3 b3,
               (xorb a4 b4, (xorb a5 b5, (xorb a6 b6, xorb a7 b7))))))).

Fixpoint xor_bytes (a b : bytes) : bytes :=
  match a, b with
  | x :: a', y :: b' => byte_xor x y :: xor_bytes a' b'
  | _, _ => []
  end.

(** ** Crypto.Cipher.AES

    The block primitive is an interface; key, IV and length checks and the
    ECB and CBC modes of operation are written out. *)

Class BlockCipher : Type := {
  block_encrypt : bytes -> bytes -> bytes;
  block_decrypt : bytes -> bytes -> bytes
}.

Definition block_size : Z := 16.

Definition valid_key (key : bytes) : bool :=
  let n := len key in (n =? 16) || (n =? 24) || (n =? 32).

Class BlockCipherLaws (BC : BlockCipher) : Prop := {
  block_encrypt_length : forall key b,
    valid_key key = true -> length b = 16%nat ->
    length (block_encrypt key b) = 16%nat;
  block_decrypt_length : forall key b,
    valid_key key = true -> length b = 16%nat ->
    length (block_decrypt key b) = 16%nat;
  block_decrypt_encrypt : forall key b,
    valid_key key = true -> length b = 16%nat ->
    block_decrypt key (block_encrypt key b) = b
}.

Inductive aes_mode : Type := MODE_ECB | MODE_CBC.

Record aes_cipher : Type := {
  aes_key : bytes;
  aes_mode_of : aes_mode;
  aes_iv : bytes
}.

Definition AES_new (key : bytes) (mode : aes_mode) (iv : bytes) : result aes_cipher :=
  if len key =? 0 then Raise (ValueError "Key cannot be the null string")
  else if match mode with
          | MODE_CBC => negb (len iv =? block_size)
          | MODE_ECB => false
          end
  then Raise (ValueError "IV must be 16 bytes long")
  else if negb (valid_key key)
  then Raise (ValueError "AES key must be either 16, 24, or 32 bytes long")
  else Ok {| aes_key := key; aes_mode_of := mode; aes_iv := iv |}.

Section Modes.
Context {BC : BlockCipher}.

Fixpoint ecb_encrypt (n : nat) (key data : bytes) : bytes :=
  match n with
  | O => []
  | S n' => block_encrypt key (firstn 16 data) ++ ecb_encrypt n' key (skipn 16 data)
  end.

Fixpoint ecb_decrypt (n : nat) (key data : bytes) : bytes :=
  match n with
  | O => []
  | S n' => block_decrypt key (firstn 16 data) ++ ecb_decrypt n' key (skipn 16 data)
  end.

Fixpoint cbc_encrypt (n : nat) (key prev data : bytes) : bytes :=
  match n with
  | O => []
  | S n' =>
      let c := block_encrypt key (xor_bytes (firstn 16 data) prev) in
      c ++ cbc_encrypt n' key c (skipn 16 data)
  end.

Fixpoint cbc_decrypt (n : nat) (key prev data : bytes) : bytes :=
  match n with
  | O => []
  | S n' =>
      let c := firstn 16 data in
      xor_bytes (block_decrypt key c) prev ++ cbc_decrypt n' key c (skipn 16 data)
  end.

Definition blocks_of (data : bytes) : nat := Z.to_nat (len data / block_size).

Definition cipher_encrypt (aes : aes_cipher) (data : bytes) : result bytes :=
  if negb (len data mod block_size =? 0)
  then Raise (ValueError "Input strings must be a multiple of 16 in length")
  else match aes_mode_of aes with
       | MODE_ECB => Ok (ecb_encrypt (blocks_of data) (aes_key aes) data)
       | MODE_CBC => Ok (cbc_encrypt (blocks_of data) (aes_key aes) (aes_iv aes) data)
       end.

Definition cipher_decrypt (aes : aes_cipher) (data : bytes) : result bytes :=
  if negb (len data mod block_size =? 0)
  then Raise (ValueError "Input strings must be a multiple of 16 in length")
  else match aes_mode_of aes with
       | MODE_ECB => Ok (ecb_decrypt (blocks_of data) (aes_key aes) data)
       | MODE_CBC => Ok (cbc_decrypt (blocks_of data) (aes_key aes) (aes_iv aes) data)
       end.

(** *** aes_decrypt / aes_encrypt (crypto.py, 437-476) *)

Definition aes_decrypt (key iv cipherdata : bytes) (mode : aes_mode) : result bytes :=
  aes <- AES_new key mode iv ;;
  output <- cipher_decrypt aes cipherdata ;;
  last <- last_item output ;;
  let padding := ord last in
  Ok (slice_to output (- padding)).

Definition aes_encrypt (key iv data : bytes) (mode : aes_mode) : result bytes :=
  aes <- AES_new key mode iv ;;
  let num_pad := block_size - (len data mod block_size) in
  c <- chr num_pad ;;
  let data := data ++ str_mul c num_pad in
  cipher_encrypt aes data.

(** The raw CBC decryption [aes.decrypt(cipherdata)] that [aes_decrypt]
    truncates. *)
Definition raw_cbc_decrypt (key iv cipherdata : bytes) : bytes :=
  cbc_decrypt (blocks_of cipherdata) key iv cipherdata.
End Modes.

(** A block cipher for running the definitions: each block is xor-ed with
    the first 16 key bytes. It is its own inverse. *)
Definition xor_cipher : BlockCipher := {|
  block_encrypt := fun key b => xor_bytes b (firstn 16 key);
  block_decrypt := fun key b => xor_bytes b (firstn 16 key)
|}.

(** PKCS#7 well-formedness of a decrypted plaintext, in the words of the
    specification: the pad byte lies in [1, block_size] and every one of the
    trailing pad bytes equals it. *)
Definition pkcs7_ok (plain : bytes) : bool :=
  match rev plain with
  | [] => false
  | b :: _ =>
      let p := ord b in
      (1 <=? p) && (p <=? block_size) && (p <=? len plain)
      && forallb (Byte.eqb b) (skipn (length plain - Z.to_nat p) plain)
  end.

(** The validation the specification asks of [aes_decrypt]. *)
Definition validates_padding (BC : BlockCipher) : Prop :=
  forall key iv c,
    valid_key key = true -> len iv = 16 -> c <> [] -> len c mod 16 = 0 ->
    pkcs7_ok (raw_cbc_decrypt key iv c) = false ->
    aes_decrypt key iv c MODE_CBC = Raise PaddingError.

(** ** Effects: exceptions over a mutable state *)

Definition Eff (S A : Type) : Type := S -> result A * S.

Definition ret {S A} (a : A) : Eff S A := fun s => (Ok a, s).
Definition raise {S A} (e : exn) : Eff S A := fun s => (Raise e, s).
Definition lift {S A} (r : result A) : Eff S A := fun s => (r, s).
Definition bind {S A B} (m : Eff S A) (k : A -> Eff S B) : Eff S B :=
  fun s => match m s with
           | (Ok a, s') => k a s'
           | (Raise e, s') => (Raise e, s')
           end.

Declare Scope eff_scope.
Delimit Scope eff_scope with eff.
Notation "x <~ m ;; k" := (bind m (fun x => k))
  (at level 61, m at next level, right associativity) : eff_scope.
Open Scope eff_scope.

(** ** The security module and the application-local store *)

(** The values of pi.cfg. *)
Definition config : Type := list (string * string).

(** The capability interface of a security module (lib/security/): the
    methods crypto.py calls on the object, over the module's own state.
    [create_hsm_object] stands for loading and instantiating the class named
    in the configuration. *)
Class SecurityModule (M : Type) : Type := {
  create_hsm_object : config -> result (option M);
  is_ready : M -> bool;
  setup_module : M -> bytes -> result bool * M;
  hsm_random : M -> Z -> result bytes * M;
  hsm_encrypt : M -> bytes -> bytes -> Z -> result bytes;
  hsm_decrypt : M -> bytes -> bytes -> Z -> result bytes
}.

(** What the contract of a security module promises: [setup_module]
    returns the readiness it leaves behind, a ready module hands out exactly
    as many random bytes as asked for and stays ready, and [decrypt] inverts
    [encrypt] under the same IV and key id. *)
Class SecurityModuleLaws {M : Type} (SM : SecurityModule M) : Prop := {
  setup_returns_readiness : forall m password flag m',
    setup_module m password = (Ok flag, m') -> is_ready m' = flag;
  random_length : forall m n,
    is_ready m = true -> 0 <= n ->
    exists r m', hsm_random m n = (Ok r, m') /\ len r = n /\ is_ready m' = true;
  decrypt_encrypt : forall m data iv id c,
    hsm_encrypt m data iv id = Ok c -> hsm_decrypt m c iv id = Ok data
}.

(** The calls made on the module object, recorded in order. *)
Inductive hsm_call : Type :=
| CallSetup (password : bytes)
| CallRandom (length : Z)
| CallEncrypt (data iv : bytes) (id : Z)
| CallDecrypt (data iv : bytes) (id : Z).

(** Process state: the ["pi_hsm"] entry of the app-local store (absent, or
    holding the module object, possibly [None]), the configuration, the byte
    buffers that [zerome] may overwrite, and the record of module calls. *)
Record world (M : Type) : Type := {
  app_store : option (option M);
  app_config : config;
  heap : list bytes;
  trace : list hsm_call
}.
Arguments app_store {M} w.
Arguments app_config {M} w.
Arguments heap {M} w.
Arguments trace {M} w.

Definition set_store {M} (w : world M) (s : option (option M)) : world M :=
  {| app_store := s; app_config := app_config w; heap := heap w; trace := trace w |}.

Definition set_heap {M} (w : world M) (h : list bytes) : world M :=
  {| app_store := app_store w; app_config := app_config w; heap := h; trace := trace w |}.

Definition add_call {M} (w : world M) (c : hsm_call) : world M :=
  {| app_store := app_store w; app_config := app_config w;
     heap := heap w; trace := trace w ++ [c] |}.

Definition log_call {M} (c : hsm_call) : Eff (world M) unit :=
  fun w => (Ok tt, add_call w c).

(** The world after [set_hsm_password] called the module's setup, and after
    a call of the module's [random]: the call is recorded and the module
    object carries its new state. *)
Definition after_setup {M} (w1 : world M) (password : bytes) (m' : M) : world M :=
  set_store (add_call w1 (CallSetup password)) (Some (Some m')).

Definition after_random {M} (w1 : world M) (n : Z) (m' : M) : world M :=
  set_store (add_call w1 (CallRandom n)) (Some (Some m')).

(** crypto.py, 100-102 *)
Definition CONFIG_KEY : Z := 1.
Definition TOKEN_KEY : Z := 2.
Definition VALUE_KEY : Z := 3.

Section HSM.
Context {M : Type} {SM : SecurityModule M}.

(** crypto.py, 290-306 *)
Definition init_hsm : Eff (world M) (option M) :=
  fun w =>
    match app_store w with
    | Some obj => (Ok obj, w)
    | None =>
        match create_hsm_object (app_config w) with
        | Ok obj => (Ok obj, set_store w (Some obj))
        | Raise e => (Raise e, w)
        end
    end.

(** crypto.py, 309-322 *)
Definition get_hsm (require_ready : bool) : Eff (world M) M :=
  hsm <~ init_hsm ;;
  match hsm with
  | None => raise (HSMException "hsm is None!")
  | Some m =>
      if require_ready && negb (is_ready m)
      then raise (HSMException "hsm not ready!")
      else ret m
  end.

(** Writing back the module object after a method changed its state. *)
Definition update_hsm (m : M) : Eff (world M) unit :=
  fun w => (Ok tt, set_store w (Some (Some m))).

(** crypto.py, 325-334 *)
Definition set_hsm_password (password : bytes) : Eff (world M) bool :=
  hsm <~ init_hsm ;;
  match hsm with
  | None => raise (AttributeError "'NoneType' object has no attribute 'is_ready'")
  | Some m =>
      if is_ready m then raise (HSMException "HSM already set up.")
      else
        _ <~ log_call (CallSetup password) ;;
        let '(r, m') := setup_module m password in
        _ <~ update_hsm m' ;;
        lift r
  end.

(** crypto.py, 397-414 *)
Definition encrypt (data iv : bytes) (id : Z) : Eff (world M) bytes :=
  hsm <~ get_hsm true ;;
  _ <~ log_call (CallEncrypt data iv id) ;;
  lift (hsm_encrypt hsm data iv id).

(** crypto.py, 417-433 *)
Definition decrypt (input iv : bytes) (id : Z) : Eff (world M) bytes :=
  hsm <~ get_hsm true ;;
  _ <~ log_call (CallDecrypt input iv id) ;;
  lift (hsm_decrypt hsm input iv id).

(** crypto.py, 511-528 *)
Definition geturandom (length : Z) (hex : bool) : Eff (world M) bytes :=
  hsm <~ get_hsm true ;;
  _ <~ log_call (CallRandom length) ;;
  let '(r, m') := hsm_random hsm length in
  _ <~ update_hsm m' ;;
  ret0 <~ lift r ;;
  ret (if hex then hexlify ret0 else ret0).
End HSM.

(** ** The base64 envelope (crypto.py, 479-507) *)

Class Base64 : Type := {
  b64encode : bytes -> bytes;
  b64decode : bytes -> result bytes
}.

Class Base64Laws (B : Base64) : Prop := {
  b64decode_b64encode : forall s, b64decode (b64encode s) = Ok s
}.

Section B64Envelope.
Context {M : Type} {SM : SecurityModule M} {BC : BlockCipher} {B : Base64}.

Definition aes_encrypt_b64 (key data : bytes) : Eff (world M) bytes :=
  iv <~ geturandom 16 false ;;
  encdata <~ lift (aes_encrypt key iv data MODE_CBC) ;;
  ret (b64encode (iv ++ encdata)).

Definition aes_decrypt_b64 (key data_b64 : bytes) : result bytes :=
  data_bin <- b64decode data_b64 ;;
  let iv := slice_to data_bin 16 in
  let encdata := slice_from data_bin 16 in
  aes_decrypt key iv encdata MODE_CBC.
End B64Envelope.

(** ** Python numbers: unbounded integers and binary64 floats *)

Abbreviation float := spec_float.

Definition prec : Z := 53.
Definition emax : Z := 1024.

Definition fadd : float -> float -> float := SFadd prec emax.
Definition fsub : float -> float -> float := SFsub prec emax.
Definition fmul : float -> float -> float := SFmul prec emax.
Definition fdiv : float -> float -> float := SFdiv prec emax.

(** Conversion of an integer, rounding to nearest, ties to even. *)
Definition float_of_Z (z : Z) : float := binary_normalize prec emax z 0 false.

(** The float denoted by the decimal literal [num / 10^k], here written as
    the correctly rounded quotient of two exactly representable integers. *)
Definition float_lit (num den : Z) : float := fdiv (float_of_Z num) (float_of_Z den).

Definition f0_0 : float := S754_zero false.
Definition f1_0 : float := float_of_Z 1.
Definition f0_1 : float := float_lit 1 10.
Definition f0_5 : float := float_lit 5 10.
Definition f2_4 : float := float_lit 24 10.
Definition f2_6 : float := float_lit 26 10.

Inductive number : Type :=
| PyInt (z : Z)
| PyFloat (f : float).

Definition to_float (x : number) : result float :=
  match x with
  | PyFloat f => Ok f
  | PyInt z =>
      match float_of_Z z with
      | S754_infinity _ => Raise (OverflowError "long int too large to convert to float")
      | f => Ok f
      end
  end.

Definition num_arith (iop : Z -> Z -> Z) (fop : float -> float -> float)
    (a b : number) : result number :=
  match a, b with
  | PyInt x, PyInt y => Ok (PyInt (iop x y))
  | _, _ => fa <- to_float a ;; fb <- to_float b ;; Ok (PyFloat (fop fa fb))
  end.

Definition num_add : number -> number -> result number := num_arith Z.add fadd.
Definition num_sub : number -> number -> result number := num_arith Z.sub fsub.
Definition num_mul : number -> number -> result number := num_arith Z.mul fmul.

Definition is_zero (f : float) : bool :=
  match f with S754_zero _ => true | _ => false end.

(** [a / b] under [from __future__ import division], for the operand types
    the module uses (at least one float operand). *)
Definition num_div (a b : number) : result number :=
  fa <- to_float a ;; fb <- to_float b ;;
  if is_zero fb then Raise (ZeroDivisionError "float division by zero")
  else Ok (PyFloat (fdiv fa fb)).

(** [x < 0] *)
Definition num_neg (x : number) : bool :=
  match x with
  | PyInt z => z <? 0
  | PyFloat f => SFltb f f0_0
  end.

(** [int(x)]: truncation toward zero. *)
Definition int_of_float (f : float) : result Z :=
  match f with
  | S754_zero _ => Ok 0
  | S754_finite s m e =>
      let v := if 0 <=? e then Z.pos m * 2 ^ e else Z.pos m / 2 ^ (- e) in
      Ok (if s then - v else v)
  | S754_infinity _ => Raise (OverflowError "cannot convert float infinity to integer")
  | S754_nan => Raise (ValueError "cannot convert float NaN to integer")
  end.

Definition int_of_number (x : number) : result Z :=
  match x with
  | PyInt z => Ok z
  | PyFloat f => int_of_float f
  end.

(** Comparison of two numbers by their exact values. *)
Definition exact_cmp (x : number) (z : Z) : option comparison :=
  match x with
  | PyInt a => Some (a ?= z)
  | PyFloat f =>
      match f with
      | S754_zero _ => Some (0 ?= z)
      | S754_finite s m e =>
          let n := if s then Z.neg m else Z.pos m in
          if 0 <=? e then Some (n * 2 ^ e ?= z) else Some (n ?= z * 2 ^ (- e))
      | S754_infinity s => Some (if s then Lt else Gt)
      | S754_nan => None
      end
  end.

(** [a <= x < b] for integer bounds. *)
Definition in_half_open (a b : Z) (x : number) : bool :=
  match exact_cmp x a, exact_cmp x b with
  | Some (Eq | Gt), Some Lt => true
  | _, _ => false
  end.

(** ** class urandom (crypto.py, 533-639) and get_rand_digit_str *)

Module urandom.
Section urandom.
Context {M : Type} {SM : SecurityModule M}.

Definition precision : Z := 12.

Definition random : Eff (world M) number :=
  randhex <~ geturandom precision true ;;
  randi0 <~ lift (int16 randhex) ;;
  randi <~ lift (num_mul (PyInt randi0) (PyFloat f1_0)) ;;
  intmax <~ lift (num_mul (PyInt (2 ^ (8 * precision))) (PyFloat f1_0)) ;;
  randf <~ lift (num_div randi intmax) ;;
  ret randf.

Definition uniform (start : number) (end_ : option number) : Eff (world M) number :=
  let '(start, end_) := match end_ with
                        | None => (PyFloat f0_0, start)
                        | Some e => (start, e)
                        end in
  startf <~ lift (num_mul start (PyFloat f1_0)) ;;
  dist <~ lift (num_sub end_ start) ;;
  sd <~ (if num_neg dist
         then (d <~ lift (num_mul dist (PyFloat (SFopp f1_0))) ;;
               s <~ lift (num_mul end_ (PyFloat f1_0)) ;;
               ret (s, d))
         else ret (startf, dist)) ;;
  let '(startf, dist) := sd in
  r <~ random ;;
  p <~ lift (num_mul r dist) ;;
  res <~ lift (num_add startf p) ;;
  ret res.

Definition randint (start : number) (end_ : option number) : Eff (world M) Z :=
  let '(start, end_) := match end_ with
                        | None => (PyInt 0, start)
                        | Some e => (start, e)
                        end in
  dist <~ lift (num_sub end_ start) ;;
  sd <~ (if num_neg dist
         then (d <~ lift (num_mul dist (PyInt (-1))) ;;
               ret (end_, d))
         else ret (start, dist)) ;;
  let '(start, dist) := sd in
  randf <~ random ;;
  p <~ lift (num_mul randf dist) ;;
  v <~ lift (num_add start p) ;;
  r <~ lift (int_of_number v) ;;
  ret r.

(** [array[idx]] for a list: negative indices count from the end. *)
Definition getitem {A} (array : list A) (idx : Z) : result A :=
  let i := if idx <? 0 then idx + len array else idx in
  if (i <? 0) || (len array <=? i) then Raise (IndexError "list index out of range")
  else match nth_error array (Z.to_nat i) with
       | Some x => Ok x
       | None => Raise (IndexError "list index out of range")
       end.

Definition choice {A} (array : list A) : Eff (world M) A :=
  let size := len array in
  idx <~ randint (PyInt 0) (Some (PyInt size)) ;;
  lift (getitem array idx).
End urandom.
End urandom.

Section RandDigits.
Context {M : Type} {SM : SecurityModule M}.

(** [int(length / 2.4 + 0.5)] *)
Definition clen_of (length : Z) : result Z :=
  q <- num_div (PyInt length) (PyFloat f2_4) ;;
  s <- num_add q (PyFloat f0_5) ;;
  int_of_number s.

(** crypto.py, 642-662 *)
Definition get_rand_digit_str (length : Z) : Eff (world M) bytes :=
  if length =? 1
  then raise (ValueError "get_rand_digit_str only works for values > 1")
  else
    clen <~ lift (clen_of length) ;;
    randd <~ geturandom clen true ;;
    n <~ lift (int16 randd) ;;
    let s := format_d n in
    ret (if len s <? length then str_mul x30 (length - len s) ++ s
         else if length <? len s then slice_to s length
         else s).
End RandDigits.

(** The two roundings of [length / 2.4] in exact arithmetic: to nearest with
    halves up, and up (the ceiling). *)
Definition round_half_up_2_4 (length : Z) : Z := (5 * length + 6) / 12.
Definition ceil_2_4 (length : Z) : Z := (5 * length + 11) / 12.

(** ** A software security module for running the definitions

    Its state is a readiness flag and a pool of bytes that [random] hands
    out in order (zero bytes once the pool is exhausted); [encrypt] and
    [decrypt] xor every byte with the first IV byte. *)

Record toy_module : Type := {
  toy_ready : bool;
  toy_pool : bytes
}.

Definition toy_crypt (data iv : bytes) : bytes :=
  map (fun b => byte_xor b (hd x00 iv)) data.

#[export] Instance toy_security_module : SecurityModule toy_module := {|
  create_hsm_object := fun _ => Ok (Some {| toy_ready := false; toy_pool := [] |});
  is_ready := toy_ready;
  setup_module := fun m _ => (Ok true, {| toy_ready := true; toy_pool := toy_pool m |});
  hsm_random := fun m n =>
    if n <? 0 then (Raise (ValueError "negative argument not allowed"), m)
    else (Ok (firstn (Z.to_nat n) (toy_pool m ++ repeat x00 (Z.to_nat n))),
          {| toy_ready := toy_ready m; toy_pool := skipn (Z.to_nat n) (toy_pool m) |});
  hsm_encrypt := fun _ data iv _ => Ok (toy_crypt data iv);
  hsm_decrypt := fun _ data iv _ => Ok (toy_crypt data iv)
|}.

(** A world whose store already holds a set-up module with the given pool. *)
Definition toy_world (pool : bytes) : world toy_module := {|
  app_store := Some (Some {| toy_ready := true; toy_pool := pool |});
  app_config := [];
  heap := [];
  trace := []
|}.

(** A world before the first [init_hsm]: nothing in the store yet. *)
Definition fresh_world : world toy_module := {|
  app_store := None;
  app_config := [];
  heap := [];
  trace := []
|}.

(** ** class SecretObj (crypto.py, 105-172) *)

(** The hash modules of [c_hash]. *)
Inductive hash_algo : Type := SHA1 | SHA224 | SHA256 | SHA384 | SHA512.

(** [hmac.new(key, msg, digestmod).digest()] *)
Class Hmac : Type := {
  hmac_new_digest : bytes -> bytes -> hash_algo -> bytes
}.

(** [sys.version_info]: major and minor version of the interpreter. *)
Class Interpreter : Type := {
  version_info : Z * Z
}.

(** [pver = float(int(ma) + int(mi) * 0.1)] *)
Definition pver {I : Interpreter} : result number :=
  let '(ma, mi) := version_info in
  p <- num_mul (PyInt mi) (PyFloat f0_1) ;;
  num_add (PyInt ma) p.

(** [x > 2.6] *)
Definition gt_2_6 (x : number) : result bool :=
  f <- to_float x ;; Ok (SFltb f2_6 f).

(** The test [pver > 2.6] on the constant computed when the module is
    imported. *)
Definition pver_gt_2_6 {I : Interpreter} : bool :=
  match (v <- pver ;; gt_2_6 v) with
  | Ok b => b
  | Raise _ => false
  end.

(** [str(s)] of a byte string is the string itself. *)
Definition str (s : bytes) : bytes := s.

(** An instance attribute: bound to a value, or removed by [del]. *)
Inductive attr (A : Type) : Type :=
| Deleted
| Bound (v : A).
Arguments Deleted {A}.
Arguments Bound {A} v.

Fixpoint bytes_eqb (a b : bytes) : bool :=
  match a, b with
  | [], [] => true
  | x :: a', y :: b' => Byte.eqb x y && bytes_eqb a' b'
  | _, _ => false
  end.

Fixpoint list_update {A} (l : list A) (i : nat) (x : A) : list A :=
  match l, i with
  | [], _ => []
  | _ :: t, O => x :: t
  | h :: t, S i' => h :: list_update t i' x
  end.

Section Buffers.
Context {M : Type}.

(** A new byte-string object; the result is its address. *)
Definition alloc (b : bytes) : Eff (world M) nat :=
  fun w => (Ok (length (heap w)), set_heap w (heap w ++ [b])).

Definition deref (l : nat) : Eff (world M) bytes :=
  fun w => match nth_error (heap w) l with
           | Some b => (Ok b, w)
           | None => (Raise (ValueError "dangling reference"), w)
           end.

(** crypto.py, 678-694: the buffer of the object is overwritten in place
    with as many zero bytes as it is long. *)
Definition zerome (bufferObject : nat) : Eff (world M) unit :=
  fun w => match nth_error (heap w) bufferObject with
           | Some b => (Ok tt, set_heap w (list_update (heap w) bufferObject
                                             (repeat x00 (length b))))
           | None => (Raise (ValueError "dangling reference"), w)
           end.
End Buffers.

Module SecretObj.
Record t : Type := mk {
  val : bytes;
  iv : bytes;
  bkey : attr (option nat);
  preserve : bool
}.

Definition __init__ (val iv : bytes) (preserve : option bool) : t :=
  {| val := val; iv := iv; bkey := Bound None;
     preserve := match preserve with Some p => p | None => true end |}.

Definition set_bkey (self : t) (b : attr (option nat)) : t :=
  {| val := val self; iv := iv self; bkey := b; preserve := preserve self |}.

Section Methods.
Context {M : Type} {SM : SecurityModule M} {BC : BlockCipher} {H : Hmac}
        {I : Interpreter}.

(** A method runs on the object and the process state. *)
Definition method (A : Type) : Type := Eff (t * world M) A.

Definition in_world {A} (m : Eff (world M) A) : method A :=
  fun s => let '(r, w') := m (snd s) in (r, (fst s, w')).

Definition self : method t := fun s => (Ok (fst s), s).

Definition assign_bkey (b : attr (option nat)) : method unit :=
  fun s => (Ok tt, (set_bkey (fst s) b, snd s)).

(** Reading [self.bkey]. *)
Definition get_bkey : method (option nat) :=
  o <~ self ;;
  match bkey o with
  | Deleted => raise (AttributeError "'SecretObj' object has no attribute 'bkey'")
  | Bound v => ret v
  end.

(** Passing [self.bkey] where a byte string is required. *)
Definition bkey_bytes : method bytes :=
  b <~ get_bkey ;;
  match b with
  | None => raise (TypeError "must be string or buffer, not None")
  | Some l => in_world (deref l)
  end.

Definition getKey : method bytes :=
  o <~ self ;; in_world (decrypt (val o) (iv o) 0).

Definition getPin : method bytes :=
  o <~ self ;; in_world (decrypt (val o) (iv o) 0).

Definition compare (key : bytes) : method bool :=
  o <~ self ;;
  bhOtpKey <~ lift (unhexlify key) ;;
  enc_otp_key <~ in_world (encrypt bhOtpKey (iv o) 0) ;;
  let otpKeyEnc := hexlify enc_otp_key in
  ret (bytes_eqb otpKeyEnc (val o)).

Definition _setupKey_ : method unit :=
  b <~ get_bkey ;;
  match b with
  | Some _ => ret tt
  | None =>
      o <~ self ;;
      akey0 <~ in_world (decrypt (val o) (iv o) 0) ;;
      akey <~ in_world (alloc akey0) ;;
      k <~ lift (unhexlify akey0) ;;
      l <~ in_world (alloc k) ;;
      _ <~ assign_bkey (Bound (Some l)) ;;
      in_world (zerome akey)
  end.

Definition _clearKey_ (preserve : bool) : method unit :=
  if negb preserve then
    b <~ get_bkey ;;
    match b with
    | None => ret tt
    | Some l =>
        _ <~ in_world (zerome l) ;;
        assign_bkey Deleted
    end
  else ret tt.

Definition hmac_digest (data_input : bytes) (hash_algo : hash_algo) : method bytes :=
  _ <~ _setupKey_ ;;
  k <~ bkey_bytes ;;
  let h := if pver_gt_2_6
           then let _hex_kex := hexlify k in hmac_new_digest k data_input hash_algo
           else hmac_new_digest k (str data_input) hash_algo in
  o <~ self ;;
  _ <~ _clearKey_ (preserve o) ;;
  ret h.

Definition aes_decrypt (data_input : bytes) : method bytes :=
  _ <~ _setupKey_ ;;
  k <~ bkey_bytes ;;
  aes <~ lift (AES_new k MODE_ECB []) ;;
  msg_bin <~ lift (cipher_decrypt aes data_input) ;;
  o <~ self ;;
  _ <~ _clearKey_ (preserve o) ;;
  ret msg_bin.

(** The finalizer; an exception raised inside it is not propagated. *)
Definition __del__ : method unit :=
  fun s => (Ok tt, snd (_clearKey_ false s)).

(** The public operations, for reasoning about arbitrary call sequences. *)
Inductive op : Type :=
| OpGetKey
| OpGetPin
| OpCompare (key : bytes)
| OpHmacDigest (data_input : bytes) (hash_algo : hash_algo)
| OpAesDecrypt (data_input : bytes).

Definition run_op (o : op) (s : t * world M) : t * world M :=
  match o with
  | OpGetKey => snd (getKey s)
  | OpGetPin => snd (getPin s)
  | OpCompare key => snd (compare key s)
  | OpHmacDigest d a => snd (hmac_digest d a s)
  | OpAesDecrypt d => snd (aes_decrypt d s)
  end.

Definition run_ops (ops : list op) (s : t * world M) : t * world M :=
  fold_left (fun s o => run_op o s) ops s.
End Methods.
End SecretObj.

(** The handle holds the materialized key [k] in the buffer at [l] and is
    set to preserve it. *)
Definition cached {M} (s : SecretObj.t * world M) (l : nat) (k : bytes) : Prop :=
  SecretObj.bkey (fst s) = Bound (Some l) /\
  SecretObj.preserve (fst s) = true /\
  nth_error (heap (snd s)) l = Some k.

(** A keyed checksum and an interpreter for running the handle. *)
Definition toy_hmac : Hmac := {|
  hmac_new_digest := fun k d _ => xor_bytes d k
|}.

Definition python_2_7 : Interpreter := {| version_info := (2, 7) |}.

(** ** class Sign (crypto.py, 697-772) *)

(** A message: text (code points) or a byte string. *)
Inductive pystring : Type :=
| Text (u : list Z)
| Str (s : bytes).

Definition byte_of_Z (z : Z) : byte :=
  match Byte.of_N (Z.to_N (z mod 256)) with
  | Some b => b
  | None => x00
  end.

Definition utf8_char (c : Z) : bytes :=
  if c <? 128 then [byte_of_Z c]
  else if c <? 2048 then
    [byte_of_Z (192 + c / 64); byte_of_Z (128 + c mod 64)]
  else if c <? 65536 then
    [byte_of_Z (224 + c / 4096); byte_of_Z (128 + c / 64 mod 64);
     byte_of_Z (128 + c mod 64)]
  else
    [byte_of_Z (240 + c / 262144); byte_of_Z (128 + c / 4096 mod 64);
     byte_of_Z (128 + c / 64 mod 64); byte_of_Z (128 + c mod 64)].

(** [if isinstance(s, text_type): s = s.encode('utf8')] *)
Definition encode_utf8 (s : pystring) : bytes :=
  match s with
  | Text u => flat_map utf8_char u
  | Str b => b
  end.

(** PyCrypto's RSA key objects, SHA-256 and the PKCS#1 v1.5 scheme. *)
Class RSA : Type := {
  RSAkey : Type;
  importKey : bytes -> result RSAkey;
  sha256_digest : bytes -> bytes;
(** [key.sign(M, 1)[0]] and [key.verify(M, (sig,))] *)
rsa_sign : RSAkey -> bytes -> result Z;
rsa_verify : RSAkey -> bytes -> Z -> result bool;
(** [pkcs1_15.new(key).sign(h)] and [pkcs1_15.new(key).verify(h, sig)],
    the hash object being represented by its digest *)
pkcs1_15_sign : RSAkey -> bytes -> result bytes;
pkcs1_15_verify : RSAkey -> bytes -> Z -> result unit
}.

Module Sign.
Record t : Type := mk {
  private : bytes;
  public : bytes
}.

Section Methods.
Context {R : RSA}.
(** The import-time flag: [true] when Crypto.Signature.pkcs1_15 is absent. *)
Context (SIGN_WITH_RSA : bool).

(** [signature[0]] of a byte string, then [str] of it. *)
Definition first_char (s : bytes) : result bytes :=
  match s with
  | [] => Raise (IndexError "string index out of range")
  | b :: _ => Ok [b]
  end.

Definition sign (self : t) (s : pystring) : result bytes :=
  let s := encode_utf8 s in
  RSAkey <- importKey (private self) ;;
  if SIGN_WITH_RSA then
    let hashvalue := sha256_digest s in
    signature <- rsa_sign RSAkey hashvalue ;;
    Ok (format_d signature)
  else
    let hashvalue := sha256_digest s in
    signature <- pkcs1_15_sign RSAkey hashvalue ;;
    first_char signature.

Definition verify (self : t) (s : pystring) (signature : bytes) : bool :=
  let s := encode_utf8 s in
  let r := false in
  let body :=
    RSAkey <- importKey (public self) ;;
    signature <- long signature ;;
    if SIGN_WITH_RSA then
      let hashvalue := sha256_digest s in
      rsa_verify RSAkey hashvalue signature
    else
      let hashvalue := sha256_digest s in
      _ <- pkcs1_15_verify RSAkey hashvalue signature ;;
      Ok r
  in
  match body with
  | Ok r' => r'
  | Raise _ => r
  end.
End Methods.
End Sign.

(** The round trip the specification states for the signer. *)
Definition sign_verify_roundtrip {R : RSA} (SIGN_WITH_RSA : bool) : Prop :=
  forall (keys : Sign.t) (m : pystring) (sg : bytes),
    Sign.sign SIGN_WITH_RSA keys m = Ok sg ->
    Sign.verify SIGN_WITH_RSA keys m sg = true.

(** Textbook RSA with the modulus 3233 = 61 * 53 for running the signer:
    a key file holds the exponent in decimal, the hash is the identity and
    the PKCS#1 v1.5 signature is the two-byte big-endian RSA signature. *)
Definition toy_modulus : Z := 3233.

(** [pow(b, e, n)] by repeated squaring. *)
Fixpoint powmod_pos (b : Z) (e : positive) (n : Z) : Z :=
  match e with
  | xH => b mod n
  | xO e' => let r := powmod_pos b e' n in r * r mod n
  | xI e' => let r := powmod_pos b e' n in (r * r mod n) * b mod n
  end.

Definition powmod (b e n : Z) : Z :=
  match e with
  | Z.pos p => powmod_pos b p n
  | _ => 1 mod n
  end.

Definition toy_pow (h : bytes) (e : Z) : Z :=
  powmod (Z.of_N (be_value h) mod toy_modulus) e toy_modulus.

#[export] Instance toy_rsa : RSA := {|
  RSAkey := Z;
  importKey := long;
  sha256_digest := fun s => s;
  rsa_sign := fun d h => Ok (toy_pow h d);
  rsa_verify := fun e h sg =>
    Ok (powmod sg e toy_modulus =? Z.of_N (be_value h) mod toy_modulus);
  pkcs1_15_sign := fun d h =>
    let sg := toy_pow h d in Ok [byte_of_Z (sg / 256); byte_of_Z sg];
  pkcs1_15_verify := fun _ _ _ => Raise (TypeError "object of type 'long' has no len()")
|}.

(** The key pair d = 2753, e = 17. *)
Definition toy_keys : Sign.t :=
  {| Sign.private := [x32; x37; x35; x33]; Sign.public := [x31; x37] |}.

(** The text "msg". *)
Definition msg : pystring := Text [109; 115; 103].

(** ** A base64 codec (RFC 4648, with padding) for running the envelope *)

Definition b64_alphabet : bytes :=
  [x41; x42; x43; x44; x45; x46; x47; x48; x49; x4a; x4b; x4c; x4d; x4e; x4f; x50;
   x51; x52; x53; x54; x55; x56; x57; x58; x59; x5a; x61; x62; x63; x64; x65; x66;
   x67; x68; x69; x6a; x6b; x6c; x6d; x6e; x6f; x70; x71; x72; x73; x74; x75; x76;
   x77; x78; x79; x7a; x30; x31; x32; x33; x34; x35; x36; x37; x38; x39; x2b; x2f].

Definition b64_char (n : N) : byte := nth (N.to_nat n) b64_alphabet x41.

Fixpoint index_of (c : byte) (l : bytes) (i : N) : option N :=
  match l with
  | [] => None
  | x :: r => if Byte.eqb c x then Some i else index_of c r (N.succ i)
  end.

Definition b64_value (c : byte) : option N := index_of c b64_alphabet 0%N.

Definition byte_of_N (n : N) : byte :=
  match Byte.of_N n with
  | Some b => b
  | None => x00
  end.

Definition group24 (a b c : byte) : N :=
  (Byte.to_N a * 65536 + Byte.to_N b * 256 + Byte.to_N c)%N.

Fixpoint rfc4648_encode (s : bytes) : bytes :=
  match s with
  | [] => []
  | [a] =>
      let n := group24 a x00 x00 in
      [b64_char (n / 262144); b64_char (n / 4096 mod 64); x3d; x3d]
  | [a; b] =>
      let n := group24 a b x00 in
      [b64_char (n / 262144); b64_char (n / 4096 mod 64); b64_char (n / 64 mod 64); x3d]
  | a :: b :: c :: rest =>
      let n := group24 a b c in
      b64_char (n / 262144) :: b64_char (n / 4096 mod 64)
        :: b64_char (n / 64 mod 64) :: b64_char (n mod 64)
        :: rfc4648_encode rest
  end%N.

Definition sextets (v0 v1 v2 v3 : N) : N :=
  (((v0 * 64 + v1) * 64 + v2) * 64 + v3)%N.

Fixpoint rfc4648_decode (s : bytes) : result bytes :=
  let bad := Raise (TypeError "Incorrect padding") in
  match s with
  | [] => Ok []
  | c0 :: c1 :: c2 :: c3 :: rest =>
      match b64_value c0, b64_value c1 with
      | Some v0, Some v1 =>
          if Byte.eqb c2 x3d then
            match c3, rest with
            | x3d, [] => Ok [byte_of_N (sextets v0 v1 0 0 / 65536)]
            | _, _ => bad
            end
          else
            match b64_value c2 with
            | None => bad
            | Some v2 =>
                if Byte.eqb c3 x3d then
                  match rest with
                  | [] => let m := sextets v0 v1 v2 0 in
                          Ok [byte_of_N (m / 65536); byte_of_N (m / 256 mod 256)]
                  | _ => bad
                  end
                else
                  match b64_value c3 with
                  | None => bad
                  | Some v3 =>
                      let m := sextets v0 v1 v2 v3 in
                      r <- rfc4648_decode rest ;;
                      Ok (byte_of_N (m / 65536) :: byte_of_N (m / 256 mod 256)
                            :: byte_of_N (m mod 256) :: r)
                  end
            end
      | _, _ => bad
      end
  | _ => bad
  end%N.

Definition rfc4648 : Base64 := {|
  b64encode := rfc4648_encode;
  b64decode := rfc4648_decode
|}.

(** Whether the float computation of [clen] agrees with rounding halves up. *)
Definition clen_agrees (n : nat) : bool :=
  match clen_of (Z.of_nat n) with
  | Ok c => c =? round_half_up_2_4 (Z.of_nat n)
  | Raise _ => false
  end.

(** ** Further definitions: the rest of crypto.py *)

(** A character that [hexlify] can produce. *)
Definition is_hexdigit (c : byte) : bool :=
  match c with
  | x30 | x31 | x32 | x33 | x34 | x35 | x36 | x37 | x38 | x39
  | x61 | x62 | x63 | x64 | x65 | x66 => true
  | _ => false
  end.

(** [range(start, stop, step)] of Python 2 as a list (the size limit of a
    real list is not modelled). *)
Definition py_range (start stop step : Z) : result (list Z) :=
  if step =? 0 then Raise (ValueError "range() step argument must not be zero")
  else
    let n := if 0 <? step
             then (if start <? stop then (stop - start - 1) / step + 1 else 0)
             else (if stop <? start then (start - stop - 1) / (- step) + 1 else 0) in
    Ok (map (fun i => start + Z.of_nat i * step) (seq 0 (Z.to_nat n))).

Section Randrange.
Context {M : Type} {SM : SecurityModule M}.

(** urandom.randrange (crypto.py, 623-639) *)
Definition randrange (start : Z) (stop : option Z) (step : Z) : Eff (world M) Z :=
  let '(start, stop) := match stop with
                        | None => (0, start)
                        | Some s => (start, s)
                        end in
  r <~ lift (py_range start stop step) ;;
  urandom.choice r.
End Randrange.

(** ** get_alphanum_str (crypto.py, 665-675) *)

(** Python's own generator [random]: [random_below g n] is the index
    [int(random() * n)] that [random.choice] uses on a sequence of [n]
    elements, with the next state of the generator. *)
Class PyRandom (G : Type) : Type := {
  random_below : G -> Z -> Z * G
}.

Class PyRandomLaws {G : Type} (R : PyRandom G) : Prop := {
  random_below_range : forall g n, 0 < n -> 0 <= fst (random_below g n) < n
}.

(** [string.ascii_letters + string.digits] *)
Definition ascii_letters_digits : bytes :=
  [x61; x62; x63; x64; x65; x66; x67; x68; x69; x6a; x6b; x6c; x6d;
   x6e; x6f; x70; x71; x72; x73; x74; x75; x76; x77; x78; x79; x7a;
   x41; x42; x43; x44; x45; x46; x47; x48; x49; x4a; x4b; x4c; x4d;
   x4e; x4f; x50; x51; x52; x53; x54; x55; x56; x57; x58; x59; x5a;
   x30; x31; x32; x33; x34; x35; x36; x37; x38; x39].

Definition is_alnum (c : byte) : bool :=
  existsb (Byte.eqb c) ascii_letters_digits.

Section Alphanum.
Context {G : Type} {R : PyRandom G}.

(** [random.choice(seq)] *)
Definition random_choice {A} (seq : list A) : Eff G A :=
  fun g => let '(i, g') := random_below g (len seq) in
           (urandom.getitem seq i, g').

(** The loop [for i in range(length): ret += random.choice(...)]. *)
Fixpoint alphanum_loop (n : nat) (ret : bytes) : Eff G bytes :=
  match n with
  | O => fun g => (Ok ret, g)
  | S n' => c <~ random_choice ascii_letters_digits ;;
            alphanum_loop n' (ret ++ [c])
  end.

Definition get_alphanum_str (length : Z) : Eff G bytes :=
  alphanum_loop (Z.to_nat length) [].
End Alphanum.

(** A linear congruential generator for running [get_alphanum_str]. *)
Definition lcg : PyRandom Z := {|
  random_below := fun g n => (g mod n, (1103515245 * g + 12345) mod 2147483648)
|}.

(** ** Passwords and PINs (crypto.py, 337-394) *)

(** The password and PIN methods of a security module. *)
Class PasswordModule (M : Type) : Type := {
  encrypt_password : M -> bytes -> result bytes;
  decrypt_password : M -> bytes -> result bytes;
  encrypt_pin : M -> bytes -> result bytes;
  decrypt_pin : M -> bytes -> result bytes
}.

(** [to_utf8] and [to_unicode] of privacyidea.lib.utils. *)
Class Utils : Type := {
  to_utf8 : pystring -> result bytes;
  to_unicode : bytes -> result (list Z)
}.

Definition FAILED_TO_DECRYPT_PASSWORD : bytes :=
  [x46; x41; x49; x4c; x45; x44; x20; x54; x4f; x20; x44; x45; x43; x52; x59; x50;
   x54; x20; x50; x41; x53; x53; x57; x4f; x52; x44; x21].

Definition FAILED_TO_ENCRYPT_PASSWORD : bytes :=
  [x46; x41; x49; x4c; x45; x44; x20; x54; x4f; x20; x45; x4e; x43; x52; x59; x50;
   x54; x20; x50; x41; x53; x53; x57; x4f; x52; x44; x21].

(** [try: ... except Exception: ...] around a computation without effects
    on the state. *)
Definition try_except {A} (body : result A) (handler : A) : A :=
  match body with
  | Ok a => a
  | Raise _ => handler
  end.

Section Passwords.
Context {M : Type} {SM : SecurityModule M} {PM : PasswordModule M} {U : Utils}.

Definition encryptPassword (password : pystring) : Eff (world M) bytes :=
  hsm <~ get_hsm true ;;
  ret (try_except (p <- to_utf8 password ;; encrypt_password hsm p)
                  FAILED_TO_ENCRYPT_PASSWORD).

Definition encryptPin (cryptPin : bytes) : Eff (world M) bytes :=
  hsm <~ get_hsm true ;;
  lift (encrypt_pin hsm cryptPin).

Definition decryptPassword (cryptPass : bytes) (convert_unicode : bool)
  : Eff (world M) pystring :=
  hsm <~ get_hsm true ;;
  let r := try_except (decrypt_password hsm cryptPass) FAILED_TO_DECRYPT_PASSWORD in
  ret (if convert_unicode
       then try_except (u <- to_unicode r ;; Ok (Text u)) (Str r)
       else Str r).

Definition decryptPin (cryptPin : bytes) : Eff (world M) bytes :=
  hsm <~ get_hsm true ;;
  lift (decrypt_pin hsm cryptPin).
End Passwords.

(** Password methods for the software module: the bytes reversed; decrypting
    the empty string fails. *)
Definition toy_password_module : PasswordModule toy_module := {|
  encrypt_password := fun _ p => Ok (rev p);
  decrypt_password := fun _ c =>
    match c with
    | [] => Raise (ValueError "empty ciphertext")
    | _ => Ok (rev c)
    end;
  encrypt_pin := fun _ p => Ok (rev p);
  decrypt_pin := fun _ c =>
    match c with
    | [] => Raise (ValueError "empty ciphertext")
    | _ => Ok (rev c)
    end
|}.

Definition toy_utils : Utils := {|
  to_utf8 := fun s => Ok (encode_utf8 s);
  to_unicode := fun b => Ok (map ord b)
|}.

(** ** create_hsm_object (crypto.py, 775-809) *)

(** A dictionary with string keys, as the list of its items. *)
Definition dict (V : Type) : Type := list (string * V).

Fixpoint dict_get {V} (d : dict V) (k : string) : option V :=
  match d with
  | [] => None
  | (k', v) :: r => if String.eqb k k' then Some v else dict_get r k
  end.

(** [d[k] = v] *)
Fixpoint dict_set {V} (d : dict V) (k : string) (v : V) : dict V :=
  match d with
  | [] => [(k, v)]
  | (k', v') :: r => if String.eqb k k' then (k, v) :: r else (k', v') :: dict_set r k v
  end.

(** [s.rsplit(".", 1)] unpacked into two names: the parts before and after
    the last dot, nothing when there is no dot. *)
Fixpoint rsplit_dot (s : string) : option (string * string) :=
  match s with
  | EmptyString => None
  | String c r =>
      match rsplit_dot r with
      | Some (a, b) => Some (String c a, b)
      | None => if Ascii.eqb c (Ascii.ascii_of_nat 46) then Some (EmptyString, r) else None
      end
  end.

Definition lower_char (c : Ascii.ascii) : Ascii.ascii :=
  let n := Ascii.nat_of_ascii c in
  if (65 <=? n)%nat && (n <=? 90)%nat then Ascii.ascii_of_nat (n + 32) else c.

(** [s.lower()] *)
Fixpoint lower (s : string) : string :=
  match s with
  | EmptyString => EmptyString
  | String c r => String (lower_char c) (lower r)
  end.

(** [s[n:]] *)
Fixpoint string_drop (n : nat) (s : string) : string :=
  match n, s with
  | O, _ => s
  | S n', String _ r => string_drop n' r
  | S _, EmptyString => EmptyString
  end.

Definition PI_HSM_MODULE_ : string := "PI_HSM_MODULE_".

(** What the function writes to the log, with the dictionary it formats. *)
Inductive log_record : Type :=
| LogInitializing (package_name class_name : string)
| LogCalling (logging_params : dict (option string)).

Module Loader.
Section Loader.
Context {M : Type}.
(** [get_module_class] of privacyidea.lib.utils: the class, as its
    constructor. *)
Context (get_module_class :
           string -> string -> string -> result (dict (option string) -> result M)).

(** The loop over [config.keys()]. *)
Definition hsm_parameters_of (cfg : config) : dict (option string) :=
  fold_left
    (fun params kv =>
       if String.prefix PI_HSM_MODULE_ (fst kv)
       then dict_set params (lower (string_drop (String.length PI_HSM_MODULE_) (fst kv)))
                     (Some (snd kv))
       else params)
    cfg [].

Definition redact (hsm_parameters : dict (option string)) : dict (option string) :=
  match dict_get hsm_parameters "password" with
  | Some _ => dict_set hsm_parameters "password" (Some "XXXX"%string)
  | None => hsm_parameters
  end.

Definition create_hsm_object (cfg : config) : result M * list log_record :=
  let hsm_module_name :=
    match dict_get cfg "PI_HSM_MODULE" with
    | Some n => n
    | None => "privacyidea.lib.security.default.DefaultSecurityModule"%string
    end in
  match rsplit_dot hsm_module_name with
  | None => (Raise (ValueError "need more than 1 value to unpack"), [])
  | Some (package_name, class_name) =>
      match get_module_class package_name class_name "setup_module" with
      | Raise e => (Raise e, [])
      | Ok hsm_class =>
          let log1 := [LogInitializing package_name class_name] in
          if String.eqb class_name "DefaultSecurityModule"
          then (hsm_class [("file"%string, dict_get cfg "PI_ENCFILE")], log1)
          else
            let hsm_parameters := hsm_parameters_of cfg in
            let logging_params := redact hsm_parameters in
            (hsm_class hsm_parameters, log1 ++ [LogCalling logging_params])
      end
  end.
End Loader.
End Loader.

(** A loader for running [create_hsm_object]: every class is found, and
    constructing it yields the parameters it was given. *)
Definition echo_loader (package_name class_name method : string)
  : result (dict (option string) -> result (dict (option string))) :=
  Ok (fun params => Ok params).

Definition sample_config : config :=
  [("PI_HSM_MODULE", "privacyidea.lib.security.aeshsm.AESHardwareSecurityModule");
   ("PI_HSM_MODULE_MODULE", "/usr/lib/libykcs11.so");
   ("PI_HSM_MODULE_PASSWORD", "topsecret");
   ("PI_ENCFILE", "/etc/privacyidea/enckey");
   ("PI_HSM_MODULE_SLOT", "1")]%string.

(** ** hash_with_pepper / verify_with_pepper (crypto.py, 267-287) *)

(** [passlib.hash.pbkdf2_sha512]: [encrypt] draws its salt from a generator
    of its own, [verify] may reject a malformed hash with an exception. *)
Class Passlib (G : Type) : Type := {
  pbkdf2_sha512_encrypt : G -> bytes -> Z -> Z -> bytes * G;
  pbkdf2_sha512_verify : bytes -> bytes -> result bool
}.

Class PasslibLaws {G : Type} (P : Passlib G) : Prop := {
  verify_encrypt : forall g secret rounds salt_size,
    pbkdf2_sha512_verify secret (fst (pbkdf2_sha512_encrypt g secret rounds salt_size))
    = Ok true
}.

(** [get_app_config_value(key, default)] of privacyidea.lib.framework. *)
Definition get_app_config_value (cfg : config) (key default : string) : bytes :=
  list_byte_of_string
    (match dict_get cfg key with
     | Some v => v
     | None => default
     end).

Section Pepper.
Context {G : Type} {P : Passlib G}.

Definition hash_with_pepper (cfg : config) (password : bytes)
    (rounds salt_size : option Z) : Eff G bytes :=
  fun g =>
    let rounds := match rounds with Some r => r | None => 10023 end in
    let salt_size := match salt_size with Some s => s | None => 10 end in
    let key := get_app_config_value cfg "PI_PEPPER" "missing" in
    let '(pw_dig, g') := pbkdf2_sha512_encrypt g (key ++ password) rounds salt_size in
    (Ok pw_dig, g').

Definition verify_with_pepper (cfg : config) (passwordhash : bytes)
    (password : option bytes) : result bool :=
  let password := match password with
                  | Some ((_ :: _) as p) => p
                  | _ => []
                  end in
  let key := get_app_config_value cfg "PI_PEPPER" "missing" in
  pbkdf2_sha512_verify (key ++ password) passwordhash.
End Pepper.

(** A stand-in for passlib: the hash is the secret followed by a salt byte
    taken from the generator. *)
Definition toy_passlib : Passlib Z := {|
  pbkdf2_sha512_encrypt := fun g secret _ _ => (secret ++ [byte_of_Z g], g + 1);
  pbkdf2_sha512_verify := fun secret h =>
    match rev h with
    | [] => Raise (ValueError "not a valid pbkdf2_sha512 hash")
    | _ :: r => Ok (bytes_eqb secret (rev r))
    end
|}.

(** * Properties *)

(** ** Lists, slices and bytes *)

Lemma len_app {A} (a b : list A) : len (a ++ b) = len a + len b.
Proof. unfold len. rewrite length_app. lia. Qed.

Lemma len_nonneg {A} (l : list A) : 0 <= len l.
Proof. unfold len. lia. Qed.

Lemma last_item_app (s : bytes) (b : byte) : last_item (s ++ [b]) = Ok b.
Proof. unfold last_item. rewrite rev_app_distr. reflexivity. Qed.

Lemma last_item_nonempty (s : bytes) :
  s <> [] -> exists b, last_item s = Ok b /\ b = last s x00.
Proof.
  intros Hs. destruct (exists_last Hs) as [s' [b ->]].
  exists b. split; [apply last_item_app | now rewrite last_last].
Qed.

Lemma ord_range (b : byte) : 0 <= ord b <= 255.
Proof.
  unfold ord. pose proof (Byte.to_N_bounded b). lia.
Qed.

Lemma chr_ord (n : Z) :
  0 <= n <= 255 -> exists b, chr n = Ok b /\ ord b = n.
Proof.
  intros Hn. unfold chr.
  replace ((n <? 0) || (255 <? n)) with false
    by (symmetry; apply orb_false_iff; split; [apply Z.ltb_ge | apply Z.ltb_ge]; lia).
  destruct (Byte.of_N (Z.to_N n)) as [b|] eqn:E.
  - exists b. split; [reflexivity|]. unfold ord.
    apply Byte.to_of_N in E. rewrite E. lia.
  - apply Byte.of_N_None_iff in E. lia.
Qed.

Lemma slice_to_neg {A} (l : list A) (p : Z) :
  0 < p -> slice_to l (- p) = firstn (length l - Z.to_nat p) l.
Proof.
  intros Hp. unfold slice_to.
  replace (- p <? 0) with true by (symmetry; apply Z.ltb_lt; lia).
  f_equal. unfold len. lia.
Qed.

Lemma slice_to_zero {A} (l : list A) : slice_to l 0 = [].
Proof.
  unfold slice_to. simpl. pose proof (len_nonneg l).
  replace (Z.min 0 (len l)) with 0 by lia. reflexivity.
Qed.

Lemma firstn_app_exact {A} (n : nat) (a b : list A) :
  length a = n -> firstn n (a ++ b) = a.
Proof.
  intros <-. rewrite firstn_app, Nat.sub_diag, firstn_all, firstn_O. apply app_nil_r.
Qed.

Lemma skipn_app_exact {A} (n : nat) (a b : list A) :
  length a = n -> skipn n (a ++ b) = b.
Proof.
  intros <-. rewrite skipn_app, Nat.sub_diag, skipn_all, skipn_O. reflexivity.
Qed.

Lemma byte_xor_involutive (a b : byte) : byte_xor (byte_xor a b) b = a.
Proof.
  unfold byte_xor.
  destruct (Byte.to_bits a) as (a0 & a1 & a2 & a3 & a4 & a5 & a6 & a7) eqn:Ea.
  destruct (Byte.to_bits b) as (b0 & b1 & b2 & b3 & b4 & b5 & b6 & b7) eqn:Eb.
  rewrite Byte.to_bits_of_bits.
  rewrite !xorb_assoc, !xorb_nilpotent, !xorb_false_r.
  rewrite <- Ea. apply Byte.of_bits_to_bits.
Qed.

Lemma xor_bytes_involutive (a b : bytes) :
  length a = length b -> xor_bytes (xor_bytes a b) b = a.
Proof.
  revert b. induction a as [|x a IH]; intros [|y b] H; simpl in *; try discriminate; auto.
  rewrite byte_xor_involutive, IH; auto.
Qed.

Lemma xor_bytes_length (a b : bytes) :
  length a = length b -> length (xor_bytes a b) = length a.
Proof.
  revert b. induction a as [|x a IH]; intros [|y b] H; simpl in *; try discriminate; auto.
Qed.

(** ** AES modes of operation *)

Section ModesFacts.
Context {BC : BlockCipher} {BCL : BlockCipherLaws BC}.

Lemma cbc_encrypt_length key n :
  valid_key key = true ->
  forall prev data,
    length prev = 16%nat -> length data = (16 * n)%nat ->
    length (cbc_encrypt n key prev data) = (16 * n)%nat.
Proof.
  intros Hk. induction n as [|n IH]; intros prev data Hp Hd; [reflexivity|].
  cbn [cbc_encrypt]. rewrite length_app.
  assert (Hx : length (xor_bytes (firstn 16 data) prev) = 16%nat).
  { rewrite xor_bytes_length; rewrite length_firstn; lia. }
  rewrite (block_encrypt_length key _ Hk Hx).
  rewrite IH; [lia | now apply block_encrypt_length | rewrite length_skipn; lia].
Qed.

Lemma cbc_decrypt_length key n :
  valid_key key = true ->
  forall prev data,
    length prev = 16%nat -> length data = (16 * n)%nat ->
    length (cbc_decrypt n key prev data) = (16 * n)%nat.
Proof.
  intros Hk. induction n as [|n IH]; intros prev data Hp Hd; [reflexivity|].
  cbn [cbc_decrypt]. rewrite length_app.
  assert (Hf : length (firstn 16 data) = 16%nat) by (rewrite length_firstn; lia).
  rewrite xor_bytes_length; rewrite (block_decrypt_length key _ Hk Hf); try lia.
  rewrite IH; [lia | assumption | rewrite length_skipn; lia].
Qed.

Lemma cbc_decrypt_encrypt key n :
  valid_key key = true ->
  forall prev data,
    length prev = 16%nat -> length data = (16 * n)%nat ->
    cbc_decrypt n key prev (cbc_encrypt n key prev data) = data.
Proof.
  intros Hk. induction n as [|n IH]; intros prev data Hp Hd.
  - destruct data; [reflexivity | discriminate].
  - cbn [cbc_encrypt cbc_decrypt].
    assert (Hf : length (firstn 16 data) = 16%nat) by (rewrite length_firstn; lia).
    assert (Hx : length (xor_bytes (firstn 16 data) prev) = 16%nat)
      by (rewrite xor_bytes_length; lia).
    pose proof (block_encrypt_length key _ Hk Hx) as Hc.
    set (c := block_encrypt key (xor_bytes (firstn 16 data) prev)) in *.
    rewrite (firstn_app_exact _ _ _ Hc), (skipn_app_exact _ _ _ Hc).
    subst c. rewrite block_decrypt_encrypt by assumption.
    rewrite xor_bytes_involutive by lia.
    rewrite IH; [apply firstn_skipn | assumption | rewrite length_skipn; lia].
Qed.

Lemma blocks_of_spec (data : bytes) :
  len data mod block_size = 0 -> length data = (16 * blocks_of data)%nat.
Proof.
  unfold blocks_of, block_size, len. intros H.
  pose proof (Z.div_mod (Z.of_nat (length data)) 16 ltac:(lia)).
  pose proof (Z.div_pos (Z.of_nat (length data)) 16 ltac:(lia) ltac:(lia)).
  lia.
Qed.

Lemma valid_key_cases (key : bytes) :
  len key = 16 \/ len key = 24 \/ len key = 32 -> valid_key key = true.
Proof.
  unfold valid_key. intros [-> | [-> | ->]]; reflexivity.
Qed.

Lemma AES_new_cbc key iv :
  valid_key key = true -> len iv = 16 ->
  AES_new key MODE_CBC iv =
  Ok {| aes_key := key; aes_mode_of := MODE_CBC; aes_iv := iv |}.
Proof.
  intros Hk Hiv. unfold AES_new. rewrite Hk, Hiv. simpl.
  destruct (len key =? 0) eqn:E; [|reflexivity].
  apply Z.eqb_eq in E. unfold valid_key in Hk. rewrite E in Hk. discriminate.
Qed.

(** What [aes_decrypt] computes on a well-formed call: the raw CBC
    plaintext cut by Python's [output[0:-padding]]. *)
Lemma aes_decrypt_cbc key iv c :
  valid_key key = true -> len iv = 16 -> c <> [] -> len c mod 16 = 0 ->
  let raw := raw_cbc_decrypt key iv c in
  length raw = length c /\
  aes_decrypt key iv c MODE_CBC = Ok (slice_to raw (- ord (last raw x00))).
Proof.
  intros Hk Hiv Hc Hal raw.
  assert (Hlen : length raw = length c).
  { unfold raw, raw_cbc_decrypt. rewrite cbc_decrypt_length; auto.
    - symmetry. now apply blocks_of_spec.
    - unfold len in Hiv. lia.
    - now apply blocks_of_spec. }
  split; [exact Hlen|].
  unfold aes_decrypt. rewrite AES_new_cbc by assumption. cbn [rbind].
  unfold cipher_decrypt. unfold block_size. rewrite Hal. cbn [negb Z.eqb aes_mode_of rbind aes_key aes_iv].
  fold (raw_cbc_decrypt key iv c). fold raw.
  assert (Hraw : raw <> []) by (intros E; rewrite E in Hlen; destruct c; [congruence | discriminate]).
  destruct (last_item_nonempty raw Hraw) as [b [-> ->]]. reflexivity.
Qed.
End ModesFacts.

Lemma xor_cipher_laws : BlockCipherLaws xor_cipher.
Proof.
  assert (Hk : forall key, valid_key key = true -> length (firstn 16 key) = 16%nat).
  { intros key H. rewrite length_firstn. unfold valid_key, len in H.
    apply orb_true_iff in H. destruct H as [H | H];
      [apply orb_true_iff in H; destruct H as [H | H]|]; apply Z.eqb_eq in H; lia. }
  split; cbn [block_encrypt block_decrypt xor_cipher];
    intros key b Hv Hb; specialize (Hk key Hv).
  - rewrite xor_bytes_length; lia.
  - rewrite xor_bytes_length; lia.
  - apply xor_bytes_involutive. lia.
Qed.

Section Envelope.
Context {BC : BlockCipher} {BCL : BlockCipherLaws BC}.

Lemma aes_encrypt_cbc key iv data :
  valid_key key = true -> len iv = 16 ->
  exists b,
    let p := 16 - len data mod 16 in
    let padded := data ++ repeat b (Z.to_nat p) in
    1 <= p <= 16 /\ ord b = p /\ len padded mod 16 = 0 /\
    aes_encrypt key iv data MODE_CBC =
    Ok (cbc_encrypt (blocks_of padded) key iv padded).
Proof.
  intros Hk Hiv.
  pose proof (Z.mod_pos_bound (len data) 16 ltac:(lia)) as Hm.
  destruct (chr_ord (16 - len data mod 16) ltac:(lia)) as [b [Hb Ho]].
  exists b. cbv zeta.
  assert (Hal : len (data ++ repeat b (Z.to_nat (16 - len data mod 16))) mod 16 = 0).
  { rewrite len_app. unfold len at 2. rewrite repeat_length, Z2Nat.id by lia.
    replace (len data + (16 - len data mod 16))
      with (len data - len data mod 16 + 1 * 16) by lia.
    rewrite Z.mod_add by lia. rewrite Zminus_mod_idemp_r, Z.sub_diag. reflexivity. }
  repeat split; try lia; try assumption.
  unfold aes_encrypt. rewrite AES_new_cbc by assumption. cbn [rbind].
  unfold block_size. rewrite Hb. cbn [rbind]. unfold str_mul, cipher_encrypt.
  unfold block_size. rewrite Hal. reflexivity.
Qed.

(** Decrypting what [aes_encrypt] produced: the padding is cut off again. *)
Lemma aes_decrypt_padded (key iv data : bytes) (b : byte) :
  valid_key key = true -> len iv = 16 ->
  let p := 16 - len data mod 16 in
  let padded := data ++ repeat b (Z.to_nat p) in
  1 <= p <= 16 -> ord b = p -> len padded mod 16 = 0 ->
  aes_decrypt key iv (cbc_encrypt (blocks_of padded) key iv padded) MODE_CBC = Ok data.
Proof.
  intros Hkey Hiv p padded Hp Ho Hal.
  assert (Hivn : length iv = 16%nat) by (unfold len in Hiv; lia).
  pose proof (blocks_of_spec padded Hal) as Hbl.
  pose proof (cbc_encrypt_length key _ Hkey iv padded Hivn Hbl) as Hcl.
  set (c := cbc_encrypt (blocks_of padded) key iv padded) in *.
  assert (Hpn : (1 <= Z.to_nat p)%nat) by lia.
  assert (Hpl : (length padded = length data + Z.to_nat p)%nat)
    by (unfold padded; rewrite length_app, repeat_length; reflexivity).
  assert (Hcne : c <> []) by (intros E; rewrite E in Hcl; simpl in Hcl; lia).
  assert (Hcal : len c mod 16 = 0).
  { unfold len. rewrite Hcl, Nat2Z.inj_mul, Z.mul_comm. apply Z.mod_mul. lia. }
  destruct (aes_decrypt_cbc key iv c Hkey Hiv Hcne Hcal) as [Hrl Hd].
  rewrite Hd.
  assert (Hraw : raw_cbc_decrypt key iv c = padded).
  { unfold raw_cbc_decrypt.
    replace (blocks_of c) with (blocks_of padded)
      by (pose proof (blocks_of_spec c Hcal); lia).
    unfold c. now apply cbc_decrypt_encrypt. }
  rewrite Hraw.
  assert (Hlast : last padded x00 = b).
  { unfold padded. destruct (Z.to_nat p) as [|n] eqn:En; [lia|].
    cbn [repeat]. rewrite repeat_cons, app_assoc. apply last_last. }
  rewrite Hlast, Ho, slice_to_neg by lia.
  rewrite Hpl, Nat.add_sub. unfold padded.
  f_equal. now apply firstn_app_exact.
Qed.

(** C2. For every key of 16, 24 or 32 bytes, every 16-byte IV and every
    byte string [data] (of any length, block-aligned or not),
    [aes_encrypt] returns a ciphertext and [aes_decrypt] of that
    ciphertext under the same key and IV returns exactly [data]. *)
Theorem aes_decrypt_aes_encrypt (key iv data : bytes) :
  len key = 16 \/ len key = 24 \/ len key = 32 ->
  len iv = 16 ->
  exists c,
    aes_encrypt key iv data MODE_CBC = Ok c /\
    aes_decrypt key iv c MODE_CBC = Ok data.
Proof.
  intros Hkey Hiv. apply valid_key_cases in Hkey.
  destruct (aes_encrypt_cbc key iv data Hkey Hiv) as [b (Hp & Ho & Hal & He)].
  cbv zeta in *.
  eexists. split; [exact He|].
  exact (aes_decrypt_padded key iv data b Hkey Hiv Hp Ho Hal).
Qed.

(** C9. For a valid key, a 16-byte IV and a non-empty block-aligned
    ciphertext, [aes_decrypt] returns (never raises): with [raw] the raw
    CBC decryption and [b] the value of its last byte, the result is the
    first [len raw - b] bytes of [raw] for [b >= 1], and the empty string
    when [b = 0] or [b >= len raw]. *)
Theorem aes_decrypt_truncates_by_last_byte (key iv c : bytes) :
  valid_key key = true -> len iv = 16 -> c <> [] -> len c mod 16 = 0 ->
  let raw := raw_cbc_decrypt key iv c in
  let b := ord (last raw x00) in
  len raw = len c /\
  aes_decrypt key iv c MODE_CBC =
    Ok (if b =? 0 then [] else firstn (length raw - Z.to_nat b) raw) /\
  (b = 0 \/ len raw <= b -> aes_decrypt key iv c MODE_CBC = Ok []).
Proof.
  intros Hk Hiv Hc Hal raw b.
  destruct (aes_decrypt_cbc key iv c Hk Hiv Hc Hal) as [Hlen Hd].
  fold raw in Hlen, Hd. fold b in Hd.
  pose proof (ord_range (last raw x00)) as Hb. fold b in Hb.
  assert (Hres : slice_to raw (- b) =
                 if b =? 0 then [] else firstn (length raw - Z.to_nat b) raw).
  { destruct (b =? 0) eqn:E.
    - apply Z.eqb_eq in E. rewrite E. apply slice_to_zero.
    - apply Z.eqb_neq in E. apply slice_to_neg. lia. }
  split; [unfold len; now rewrite Hlen|].
  split; [now rewrite Hd, Hres|].
  intros [H0 | Hge]; rewrite Hd, Hres.
  - rewrite H0. reflexivity.
  - destruct (b =? 0); [reflexivity|].
    replace (length raw - Z.to_nat b)%nat with 0%nat by (unfold len in Hge; lia).
    reflexivity.
Qed.

Lemma aes_decrypt_never_PaddingError key iv c mode :
  aes_decrypt key iv c mode <> Raise PaddingError.
Proof.
  unfold aes_decrypt, AES_new, cipher_decrypt, last_item.
  repeat match goal with
         | |- context [if ?x then _ else _] => destruct x; cbn [rbind]
         | |- context [match ?x with _ => _ end] => destruct x; cbn [rbind]
         end; discriminate.
Qed.

(** Every lawful block cipher has a ciphertext whose plaintext carries
    malformed padding and that [aes_decrypt] nevertheless accepts. *)
Lemma aes_decrypt_accepts_malformed key iv :
  valid_key key = true -> len iv = 16 ->
  let c := cbc_encrypt 1 key iv (repeat x41 16) in
  pkcs7_ok (raw_cbc_decrypt key iv c) = false /\
  aes_decrypt key iv c MODE_CBC = Ok [].
Proof.
  intros Hk Hiv c.
  assert (Hivn : length iv = 16%nat) by (unfold len in Hiv; lia).
  pose proof (cbc_encrypt_length key 1 Hk iv (repeat x41 16) Hivn eq_refl) as Hcl.
  fold c in Hcl.
  assert (Hcne : c <> []) by (intros E; rewrite E in Hcl; discriminate).
  assert (Hcal : len c mod 16 = 0) by (unfold len; rewrite Hcl; reflexivity).
  assert (Hraw : raw_cbc_decrypt key iv c = repeat x41 16).
  { unfold raw_cbc_decrypt, blocks_of, len. rewrite Hcl.
    change (Z.to_nat (Z.of_nat (16 * 1) / block_size)) with 1%nat.
    unfold c. now apply cbc_decrypt_encrypt. }
  destruct (aes_decrypt_cbc key iv c Hk Hiv Hcne Hcal) as [_ Hd].
  rewrite Hd, Hraw. split; reflexivity.
Qed.
End Envelope.

(** C5 (as amended). [aes_decrypt] performs no padding validation: it never
    fails with [PaddingError], and on a non-empty block-aligned ciphertext
    whose plaintext padding is malformed it still returns, namely the raw
    plaintext cut by the value of its last byte. *)
Theorem aes_decrypt_does_not_validate_padding
    {BC : BlockCipher} {BCL : BlockCipherLaws BC} (key iv c : bytes) :
  valid_key key = true -> len iv = 16 -> c <> [] -> len c mod 16 = 0 ->
  pkcs7_ok (raw_cbc_decrypt key iv c) = false ->
  let raw := raw_cbc_decrypt key iv c in
  aes_decrypt key iv c MODE_CBC = Ok (slice_to raw (- ord (last raw x00))) /\
  aes_decrypt key iv c MODE_CBC <> Raise PaddingError.
Proof.
  intros Hk Hiv Hc Hal _ raw.
  destruct (aes_decrypt_cbc key iv c Hk Hiv Hc Hal) as [_ Hd].
  split; [exact Hd | apply aes_decrypt_never_PaddingError].
Qed.

(** C2, run on the xor cipher with a block-aligned plaintext of sixteen
    letters A. *)
Lemma aes_roundtrip_xor_cipher :
  exists c,
    @aes_encrypt xor_cipher (repeat x01 16) (repeat x02 16) (repeat x41 16) MODE_CBC
      = Ok c /\
    @aes_decrypt xor_cipher (repeat x01 16) (repeat x02 16) c MODE_CBC
      = Ok (repeat x41 16).
Proof.
  exact (@aes_decrypt_aes_encrypt xor_cipher xor_cipher_laws
           (repeat x01 16) (repeat x02 16) (repeat x41 16)
           (or_introl eq_refl) eq_refl).
Defined.

(** C9, run on the xor cipher: a ciphertext whose plaintext ends in the
    byte 0 decrypts to the empty string. *)
Lemma aes_decrypt_truncates_xor_cipher :
  @aes_decrypt xor_cipher (repeat x00 16) (repeat x00 16) (repeat x00 16) MODE_CBC
    = Ok [].
Proof.
  apply (@aes_decrypt_truncates_by_last_byte xor_cipher xor_cipher_laws
           (repeat x00 16) (repeat x00 16) (repeat x00 16)
           eq_refl eq_refl ltac:(discriminate) eq_refl).
  left. reflexivity.
Defined.

(** C5, run on the xor cipher: sixteen letters A are no valid padding, and
    [aes_decrypt] returns. *)
Lemma aes_decrypt_malformed_xor_cipher :
  @aes_decrypt xor_cipher (repeat x00 16) (repeat x00 16) (repeat x41 16) MODE_CBC
    <> Raise PaddingError.
Proof.
  apply (@aes_decrypt_does_not_validate_padding xor_cipher xor_cipher_laws
           (repeat x00 16) (repeat x00 16) (repeat x41 16)
           eq_refl eq_refl ltac:(discriminate) eq_refl eq_refl).
Defined.

(** C5, counterexample: no lawful block cipher makes [aes_decrypt] validate
    its padding; under the key and IV of sixteen zero bytes the ciphertext
    of sixteen letters A is accepted and yields the empty string. *)
Lemma aes_decrypt_validation_fails :
  ~ (forall BC : BlockCipher, BlockCipherLaws BC -> validates_padding BC).
Proof.
  intros H.
  specialize (H xor_cipher xor_cipher_laws (repeat x00 16) (repeat x00 16) (repeat x41 16)
                eq_refl eq_refl ltac:(discriminate) eq_refl eq_refl).
  vm_compute in H. discriminate.
Qed.

(** ** Hexadecimal and decimal strings *)

Lemma hex_byte (b : byte) :
  hexval (hexdigit (Byte.to_N b / 16)) = Some (Byte.to_N b / 16)%N /\
  hexval (hexdigit (Byte.to_N b mod 16)) = Some (Byte.to_N b mod 16)%N /\
  Byte.of_N (16 * (Byte.to_N b / 16) + Byte.to_N b mod 16) = Some b.
Proof. destruct b; repeat split; reflexivity. Qed.

Lemma hexlify_length (s : bytes) : length (hexlify s) = (2 * length s)%nat.
Proof. induction s as [|b s IH]; simpl in *; lia. Qed.

Lemma hexlify_cons (b : byte) (s : bytes) :
  hexlify (b :: s) =
  hexdigit (Byte.to_N b / 16) :: hexdigit (Byte.to_N b mod 16) :: hexlify s.
Proof. reflexivity. Qed.

Lemma unhex_pairs_hexlify (s : bytes) : unhex_pairs (hexlify s) = Ok s.
Proof.
  induction s as [|b s IH]; [reflexivity|].
  rewrite hexlify_cons. cbn [unhex_pairs].
  destruct (hex_byte b) as (-> & -> & ->). rewrite IH. reflexivity.
Qed.

Lemma unhexlify_hexlify (s : bytes) : unhexlify (hexlify s) = Ok s.
Proof.
  unfold unhexlify. rewrite hexlify_length.
  replace (Nat.odd (2 * length s)) with false.
  - apply unhex_pairs_hexlify.
  - symmetry. rewrite <- Nat.negb_even, Nat.even_mul. reflexivity.
Qed.

Lemma hexlify_inj (a b : bytes) : hexlify a = hexlify b -> a = b.
Proof.
  intros H. pose proof (unhexlify_hexlify a) as Ha.
  rewrite H, unhexlify_hexlify in Ha. congruence.
Qed.

Lemma hex_digits_value_hexlify (s : bytes) : forall acc,
  hex_digits_value acc (hexlify s) =
  Some (fold_left (fun acc b => (256 * acc + Byte.to_N b)%N) s acc).
Proof.
  induction s as [|b s IH]; intros acc; [reflexivity|].
  rewrite hexlify_cons. cbn [hex_digits_value fold_left].
  destruct (hex_byte b) as (-> & -> & _). rewrite IH. do 2 f_equal.
  pose proof (N.div_mod (Byte.to_N b) 16 ltac:(discriminate)). lia.
Qed.

Lemma int16_hexlify (s : bytes) :
  s <> [] -> int16 (hexlify s) = Ok (Z.of_N (be_value s)).
Proof.
  intros Hs. unfold int16. rewrite hex_digits_value_hexlify.
  destruct s as [|b s]; [congruence|]. reflexivity.
Qed.

Lemma bytes_eqb_eq (a b : bytes) : bytes_eqb a b = true <-> a = b.
Proof.
  revert b. induction a as [|x a IH]; intros [|y b]; simpl; split; intros H;
    try discriminate; try reflexivity.
  - apply andb_true_iff in H. destruct H as [H1 H2].
    apply Byte.byte_dec_bl in H1. apply IH in H2. congruence.
  - injection H as -> ->. apply andb_true_iff. split.
    + now apply Byte.byte_dec_lb.
    + now apply IH.
Qed.

Lemma bytes_eqb_neq (a b : bytes) : a <> b -> bytes_eqb a b = false.
Proof.
  intros H. destruct (bytes_eqb a b) eqn:E; [|reflexivity].
  apply bytes_eqb_eq in E. contradiction.
Qed.

Lemma bytes_of_uint_digits (d : Decimal.uint) :
  forallb is_digit (bytes_of_uint d) = true.
Proof. induction d; simpl; auto. Qed.

Lemma uint_of_bytes_of_uint (d : Decimal.uint) :
  uint_of_bytes (bytes_of_uint d) = Some d.
Proof. induction d; simpl; try rewrite IHd; reflexivity. Qed.

Lemma bytes_of_uint_head (d : Decimal.uint) :
  match bytes_of_uint d with
  | c :: _ => is_digit c = true
  | [] => d = Decimal.Nil
  end.
Proof. destruct d; reflexivity. Qed.

Lemma to_uint_nonnil (n : N) : N.to_uint n <> Decimal.Nil.
Proof.
  destruct n; [discriminate|]. cbn.
  pose proof (DecimalPos.Unsigned.to_uint_nonnil p). auto.
Qed.

Lemma format_d_digits (n : Z) :
  0 <= n -> forallb is_digit (format_d n) = true /\ format_d n <> [].
Proof.
  intros Hn. destruct n as [|p|p]; try lia; unfold format_d.
  - split; [reflexivity | discriminate].
  - split; [apply bytes_of_uint_digits|].
    pose proof (bytes_of_uint_head (N.to_uint (Z.to_N (Z.pos p)))) as Hh.
    destruct (bytes_of_uint _); [|discriminate].
    now apply to_uint_nonnil in Hh.
Qed.

Lemma long_format_d (n : Z) : 0 <= n -> long (format_d n) = Ok n.
Proof.
  intros Hn.
  assert (E : format_d n = bytes_of_uint (N.to_uint (Z.to_N n)))
    by (destruct n; try lia; reflexivity).
  rewrite E. set (d := N.to_uint (Z.to_N n)).
  pose proof (bytes_of_uint_head d) as Hh.
  pose proof (uint_of_bytes_of_uint d) as Hu.
  assert (Hv : Z.of_N (N.of_uint d) = n)
    by (unfold d; rewrite DecimalN.Unsigned.of_to; lia).
  unfold long. destruct (bytes_of_uint d) as [|c r] eqn:Eb.
  - exfalso. now apply (to_uint_nonnil (Z.to_N n)).
  - destruct c; try discriminate Hh; rewrite Hu, Hv; reflexivity.
Qed.

(** ** The base64 codec *)

Lemma b64_char_value_nat (k : nat) :
  (k < 64)%nat ->
  b64_value (b64_char (N.of_nat k)) = Some (N.of_nat k) /\
  Byte.eqb (b64_char (N.of_nat k)) x3d = false.
Proof.
  intros H. do 64 (destruct k as [|k]; [split; vm_compute; reflexivity|]). lia.
Qed.

Lemma b64_char_value (n : N) :
  (n < 64)%N ->
  b64_value (b64_char n) = Some n /\ Byte.eqb (b64_char n) x3d = false.
Proof.
  intros H. rewrite <- (N2Nat.id n). apply b64_char_value_nat. lia.
Qed.

Lemma group24_bound (a b c : byte) : (group24 a b c < 16777216)%N.
Proof.
  unfold group24.
  pose proof (Byte.to_N_bounded a). pose proof (Byte.to_N_bounded b).
  pose proof (Byte.to_N_bounded c). lia.
Qed.

Lemma byte_of_to_N (b : byte) : byte_of_N (Byte.to_N b) = b.
Proof. unfold byte_of_N. now rewrite Byte.of_to_N. Qed.

Section Sextets.
Variables a b c : byte.

Local Abbreviation n := (group24 a b c).
Local Abbreviation v0 := (n / 262144)%N.
Local Abbreviation v1 := (n / 4096 mod 64)%N.
Local Abbreviation v2 := (n / 64 mod 64)%N.
Local Abbreviation v3 := (n mod 64)%N.

Local Ltac solve_sextets :=
  pose proof (Byte.to_N_bounded a); pose proof (Byte.to_N_bounded b);
  pose proof (Byte.to_N_bounded c);
  unfold sextets, group24 in *;
  zify; Z.to_euclidean_division_equations; lia.

Lemma sextet_bounds : (v0 < 64 /\ v1 < 64 /\ v2 < 64 /\ v3 < 64)%N.
Proof. repeat split; solve_sextets. Qed.

Lemma sextets_first : (sextets v0 v1 v2 v3 / 65536)%N = Byte.to_N a.
Proof. solve_sextets. Qed.

Lemma sextets_second : (sextets v0 v1 v2 v3 / 256 mod 256)%N = Byte.to_N b.
Proof. solve_sextets. Qed.

Lemma sextets_third : (sextets v0 v1 v2 v3 mod 256)%N = Byte.to_N c.
Proof. solve_sextets. Qed.

Lemma sextets_first_pad2 :
  c = x00 -> b = x00 -> (sextets v0 v1 0 0 / 65536)%N = Byte.to_N a.
Proof.
  intros Hc Hb. assert (Byte.to_N c = 0%N) by now subst c.
  assert (Byte.to_N b = 0%N) by now subst b. solve_sextets.
Qed.

Lemma sextets_first_pad1 :
  c = x00 -> (sextets v0 v1 v2 0 / 65536)%N = Byte.to_N a.
Proof. intros Hc. assert (Byte.to_N c = 0%N) by now subst c. solve_sextets. Qed.

Lemma sextets_second_pad1 :
  c = x00 -> (sextets v0 v1 v2 0 / 256 mod 256)%N = Byte.to_N b.
Proof. intros Hc. assert (Byte.to_N c = 0%N) by now subst c. solve_sextets. Qed.
End Sextets.

Lemma rfc4648_decode_group (a b c : byte) (rest : bytes) :
  rfc4648_decode (rfc4648_encode (a :: b :: c :: rest)) =
  (r <- rfc4648_decode (rfc4648_encode rest) ;; Ok (a :: b :: c :: r)).
Proof.
  destruct (sextet_bounds a b c) as (H0 & H1 & H2 & H3).
  destruct (b64_char_value _ H0) as [E0 _].
  destruct (b64_char_value _ H1) as [E1 _].
  destruct (b64_char_value _ H2) as [E2 N2].
  destruct (b64_char_value _ H3) as [E3 N3].
  cbn [rfc4648_encode rfc4648_decode].
  rewrite E0, E1, N2, E2, N3, E3.
  rewrite sextets_first, sextets_second, sextets_third, !byte_of_to_N.
  reflexivity.
Qed.

Lemma rfc4648_decode_pad1 (a b : byte) :
  rfc4648_decode (rfc4648_encode [a; b]) = Ok [a; b].
Proof.
  destruct (sextet_bounds a b x00) as (H0 & H1 & H2 & _).
  destruct (b64_char_value _ H0) as [E0 _].
  destruct (b64_char_value _ H1) as [E1 _].
  destruct (b64_char_value _ H2) as [E2 N2].
  cbn [rfc4648_encode rfc4648_decode].
  rewrite E0, E1, N2, E2. cbn [Byte.eqb].
  replace (Byte.eqb x3d x3d) with true by reflexivity.
  rewrite sextets_first_pad1, sextets_second_pad1, !byte_of_to_N by reflexivity.
  reflexivity.
Qed.

Lemma rfc4648_decode_pad2 (a : byte) :
  rfc4648_decode (rfc4648_encode [a]) = Ok [a].
Proof.
  destruct (sextet_bounds a x00 x00) as (H0 & H1 & _ & _).
  destruct (b64_char_value _ H0) as [E0 _].
  destruct (b64_char_value _ H1) as [E1 _].
  cbn [rfc4648_encode rfc4648_decode].
  rewrite E0, E1.
  replace (Byte.eqb x3d x3d) with true by reflexivity.
  rewrite sextets_first_pad2, byte_of_to_N by reflexivity.
  reflexivity.
Qed.

Lemma rfc4648_roundtrip_upto (n : nat) : forall s,
  (length s <= n)%nat -> rfc4648_decode (rfc4648_encode s) = Ok s.
Proof.
  induction n as [|n IH]; intros s Hs.
  - destruct s; [reflexivity | simpl in Hs; lia].
  - destruct s as [|a [|b [|c rest]]].
    + reflexivity.
    + apply rfc4648_decode_pad2.
    + apply rfc4648_decode_pad1.
    + rewrite rfc4648_decode_group, IH by (simpl in Hs; lia). reflexivity.
Qed.

Lemma rfc4648_laws : Base64Laws rfc4648.
Proof.
  split. intros s. apply (rfc4648_roundtrip_upto (length s)). lia.
Qed.

(** ** The security module handle *)

Lemma toy_module_laws : SecurityModuleLaws toy_security_module.
Proof.
  split.
  - intros m password flag m' H. cbn in H. now inversion H.
  - intros m n Hr Hn. cbn. replace (n <? 0) with false by (symmetry; apply Z.ltb_ge; lia).
    eexists _, _. split; [reflexivity|]. split; [|exact Hr].
    unfold len. rewrite length_firstn, length_app, repeat_length. lia.
  - intros m data iv id c H. cbn in *. injection H as <-. f_equal.
    unfold toy_crypt. rewrite map_map. rewrite <- (map_id data) at 2.
    apply map_ext. intros b. apply byte_xor_involutive.
Qed.

Section HSMFacts.
Context {M : Type} {SM : SecurityModule M}.

Lemma init_hsm_store (w w1 : world M) (obj : option M) :
  init_hsm w = (Ok obj, w1) ->
  app_store w1 = Some obj /\ heap w1 = heap w /\ trace w1 = trace w.
Proof.
  unfold init_hsm. destruct (app_store w) as [o|] eqn:E.
  - intros H. inversion H. subst. auto.
  - destruct (create_hsm_object (app_config w)); intros H; inversion H. auto.
Qed.

Lemma init_hsm_present (w : world M) (obj : option M) :
  app_store w = Some obj -> init_hsm w = (Ok obj, w).
Proof. intros H. unfold init_hsm. now rewrite H. Qed.

Lemma get_hsm_present (w : world M) (m : M) (require_ready : bool) :
  app_store w = Some (Some m) -> is_ready m = true ->
  get_hsm require_ready w = (Ok m, w).
Proof.
  intros Hs Hr. unfold get_hsm, bind. rewrite (init_hsm_present _ _ Hs), Hr.
  rewrite andb_false_r. reflexivity.
Qed.

(** C6. Let the store hold (or [init_hsm] create) a module that is not
    set up. Then [get_hsm] with [require_ready] raises "hsm not ready!";
    [set_hsm_password] calls the module's setup once and returns what it
    returns, the readiness flag; when that call succeeded, [get_hsm]
    succeeds, and a further [set_hsm_password] raises "HSM already set up."
    leaving the state, hence the record of setup calls, untouched. *)
Theorem hsm_setup_lifecycle {SML : SecurityModuleLaws SM}
    (w w1 : world M) (m : M) (password password' : bytes) :
  init_hsm w = (Ok (Some m), w1) ->
  is_ready m = false ->
  get_hsm true w = (Raise (HSMException "hsm not ready!"), w1) /\
  forall r m', setup_module m password = (r, m') ->
    let w2 := after_setup w1 password m' in
    set_hsm_password password w = (r, w2) /\
    trace w2 = trace w ++ [CallSetup password] /\
    (r = Ok true ->
     get_hsm true w2 = (Ok m', w2) /\
     set_hsm_password password' w2 =
       (Raise (HSMException "HSM already set up."), w2)).
Proof.
  intros Hinit Hnr. split.
  - unfold get_hsm, bind. rewrite Hinit, Hnr. reflexivity.
  - intros r m' Hsetup w2.
    destruct (init_hsm_store _ _ _ Hinit) as (Hst & _ & Htr).
    split; [|split].
    + unfold set_hsm_password, bind. rewrite Hinit, Hnr.
      cbn [log_call]. rewrite Hsetup. reflexivity.
    + unfold w2, after_setup. cbn. now rewrite Htr.
    + intros ->.
      pose proof (setup_returns_readiness _ _ _ _ Hsetup) as Hready.
      assert (Hs2 : app_store w2 = Some (Some m')) by reflexivity.
      split; [now apply get_hsm_present|].
      unfold set_hsm_password, bind.
      rewrite (init_hsm_present _ _ Hs2), Hready. reflexivity.
Qed.
End HSMFacts.

(** C6, on the software module: a first [init_hsm] creates a module that is
    not set up, and the life cycle runs as stated. *)
Lemma hsm_setup_lifecycle_toy :
  init_hsm fresh_world =
    (Ok (Some {| toy_ready := false; toy_pool := [] |}),
     set_store fresh_world (Some (Some {| toy_ready := false; toy_pool := [] |}))) /\
  fst (get_hsm true fresh_world) = Raise (HSMException "hsm not ready!") /\
  fst (set_hsm_password [x78] fresh_world) = Ok true /\
  fst (get_hsm true (snd (set_hsm_password [x78] fresh_world))) =
    Ok {| toy_ready := true; toy_pool := [] |} /\
  fst (set_hsm_password [x79] (snd (set_hsm_password [x78] fresh_world))) =
    Raise (HSMException "HSM already set up.").
Proof.
  pose proof (@hsm_setup_lifecycle _ _ toy_module_laws fresh_world _ _ [x78] [x79]
                eq_refl eq_refl) as [H1 H2].
  specialize (H2 _ _ eq_refl). cbv zeta in H2. destruct H2 as (H2 & _ & H3).
  destruct (H3 eq_refl) as [H4 H5].
  split; [reflexivity|]. split; [now rewrite H1|]. split; [now rewrite H2|].
  rewrite H2. cbn [snd]. split; [now rewrite H4 | now rewrite H5].
Defined.

(** ** Random bytes and the base64 envelope *)

Lemma slice_to_firstn {A} (l : list A) (n : Z) :
  0 <= n -> slice_to l n = firstn (Z.to_nat n) l.
Proof.
  intros Hn. unfold slice_to.
  replace (n <? 0) with false by (symmetry; apply Z.ltb_ge; lia).
  destruct (Z.le_gt_cases n (len l)) as [H | H].
  - now rewrite Z.min_l.
  - rewrite Z.min_r by lia. unfold len in *. rewrite Nat2Z.id.
    rewrite firstn_all, firstn_all2 by lia. reflexivity.
Qed.

Section RandomFacts.
Context {M : Type} {SM : SecurityModule M}.

Lemma get_hsm_ready (w w1 : world M) (m : M) :
  init_hsm w = (Ok (Some m), w1) -> is_ready m = true ->
  get_hsm true w = (Ok m, w1).
Proof.
  intros Hi Hr. unfold get_hsm, bind. rewrite Hi, Hr. reflexivity.
Qed.

Lemma geturandom_ready (w w1 : world M) (m m' : M) (n : Z) (hex : bool) (r : bytes) :
  init_hsm w = (Ok (Some m), w1) -> is_ready m = true ->
  hsm_random m n = (Ok r, m') ->
  geturandom n hex w = (Ok (if hex then hexlify r else r), after_random w1 n m').
Proof.
  intros Hi Hr Hrand. unfold geturandom, bind.
  rewrite (get_hsm_ready _ _ _ Hi Hr). cbn [log_call]. rewrite Hrand.
  reflexivity.
Qed.
End RandomFacts.

Section B64Facts.
Context {M : Type} {SM : SecurityModule M} {SML : SecurityModuleLaws SM}
        {BC : BlockCipher} {BCL : BlockCipherLaws BC}
        {B : Base64} {BL : Base64Laws B}.

(** C7. With the security module set up and a key of 16, 24 or 32 bytes,
    [aes_encrypt_b64] asks the module for 16 random bytes, uses them as
    IV and returns the base64 encoding of the IV followed by the CBC
    ciphertext; [aes_decrypt_b64] takes the first 16 decoded bytes as IV
    and the rest as ciphertext, and gives back exactly [data]. *)
Theorem aes_decrypt_b64_aes_encrypt_b64
    (w w1 : world M) (m : M) (key data : bytes) :
  init_hsm w = (Ok (Some m), w1) -> is_ready m = true ->
  len key = 16 \/ len key = 24 \/ len key = 32 ->
  exists iv c m',
    hsm_random m 16 = (Ok iv, m') /\ len iv = 16 /\
    aes_encrypt key iv data MODE_CBC = Ok c /\
    aes_encrypt_b64 key data w = (Ok (b64encode (iv ++ c)), after_random w1 16 m') /\
    trace (after_random w1 16 m') = trace w ++ [CallRandom 16] /\
    (forall enc d, b64decode enc = Ok d ->
       aes_decrypt_b64 key enc =
       aes_decrypt key (firstn 16 d) (skipn 16 d) MODE_CBC) /\
    aes_decrypt_b64 key (b64encode (iv ++ c)) = Ok data.
Proof.
  intros Hi Hr Hkey.
  destruct (random_length m 16 Hr ltac:(lia)) as (iv & m' & Hrand & Hlen & _).
  apply valid_key_cases in Hkey.
  destruct (aes_encrypt_cbc key iv data Hkey Hlen) as [b (Hp & Ho & Hal & He)].
  pose proof (aes_decrypt_padded key iv data b Hkey Hlen Hp Ho Hal) as Hd.
  cbv zeta in He, Hd.
  set (c := cbc_encrypt _ key iv _) in He, Hd.
  exists iv, c, m'.
  assert (Hsplit : forall enc d, b64decode enc = Ok d ->
            aes_decrypt_b64 key enc =
            aes_decrypt key (firstn 16 d) (skipn 16 d) MODE_CBC).
  { intros enc d Hdec. unfold aes_decrypt_b64. rewrite Hdec. cbn [rbind].
    rewrite slice_to_firstn by lia. reflexivity. }
  repeat split; auto.
  - unfold aes_encrypt_b64, bind.
    rewrite (geturandom_ready _ _ _ _ _ false _ Hi Hr Hrand).
    unfold lift. rewrite He. reflexivity.
  - cbn. destruct (init_hsm_store _ _ _ Hi) as (_ & _ & ->). reflexivity.
  - rewrite (Hsplit _ _ (b64decode_b64encode (iv ++ c))).
    assert (Hn : length iv = 16%nat) by (unfold len in Hlen; lia).
    rewrite (firstn_app_exact _ _ _ Hn), (skipn_app_exact _ _ _ Hn). exact Hd.
Qed.
End B64Facts.

(** C7, run on the software module with the xor block cipher and the
    RFC 4648 codec. *)
Lemma aes_b64_roundtrip_toy :
  exists enc w',
    @aes_encrypt_b64 _ _ xor_cipher rfc4648 (repeat x01 16) [x68; x69] (toy_world [x07])
      = (Ok enc, w') /\
    @aes_decrypt_b64 xor_cipher rfc4648 (repeat x01 16) enc = Ok [x68; x69].
Proof.
  destruct (@aes_decrypt_b64_aes_encrypt_b64 _ _ toy_module_laws _ xor_cipher_laws
              _ rfc4648_laws (toy_world [x07]) _ _ (repeat x01 16) [x68; x69]
              eq_refl eq_refl (or_introl eq_refl))
    as (iv & c & m' & _ & _ & _ & He & _ & _ & Hd).
  eexists _, _. split; [exact He | exact Hd].
Defined.

(** ** SecretObj.compare *)

Section CompareFacts.
Context {M : Type} {SM : SecurityModule M}.

Lemma encrypt_ready (w w1 : world M) (m : M) (data iv : bytes) (id : Z) :
  init_hsm w = (Ok (Some m), w1) -> is_ready m = true ->
  encrypt data iv id w = (hsm_encrypt m data iv id, add_call w1 (CallEncrypt data iv id)).
Proof.
  intros Hi Hr. unfold encrypt, bind.
  rewrite (get_hsm_ready _ _ _ Hi Hr). reflexivity.
Qed.

(** What [compare] computes once the module is set up and its [encrypt]
    returns: one [encrypt] call, and the comparison of the hex encoding of
    its result with the stored value. *)
Lemma compare_ready (w w1 : world M) (m : M) (handle : SecretObj.t) (k c : bytes) :
  init_hsm w = (Ok (Some m), w1) -> is_ready m = true ->
  hsm_encrypt m k (SecretObj.iv handle) 0 = Ok c ->
  SecretObj.compare (hexlify k) (handle, w) =
  (Ok (bytes_eqb (hexlify c) (SecretObj.val handle)),
   (handle, add_call w1 (CallEncrypt k (SecretObj.iv handle) 0))).
Proof.
  intros Hi Hr He.
  unfold SecretObj.compare, bind, SecretObj.self, lift, SecretObj.in_world.
  cbn [fst snd]. rewrite unhexlify_hexlify.
  rewrite (encrypt_ready _ _ _ _ _ _ Hi Hr), He. reflexivity.
Qed.

(** A handle that stores the ciphertext itself never matches: the hex
    encoding of a non-empty string is twice as long as the string. *)
Lemma compare_raw_ciphertext (w w1 : world M) (m : M) (raw_key iv c : bytes) :
  init_hsm w = (Ok (Some m), w1) -> is_ready m = true ->
  hsm_encrypt m raw_key iv 0 = Ok c -> c <> [] ->
  fst (SecretObj.compare (hexlify raw_key) (SecretObj.__init__ c iv None, w)) = Ok false.
Proof.
  intros Hi Hr He Hc.
  rewrite (compare_ready w w1 m (SecretObj.__init__ c iv None) raw_key c Hi Hr He).
  cbn [fst SecretObj.val SecretObj.__init__].
  rewrite bytes_eqb_neq; [reflexivity|].
  intros E. apply (f_equal (@length byte)) in E. rewrite hexlify_length in E.
  destruct c; [congruence | simpl in E; lia].
Qed.

(** The handles that [compare] does serve are those whose stored value is
    the hex encoding of [encrypt(raw_key, iv)]: on them [compare] of the hex
    encoding of [raw_key] returns true, and [compare] of the hex encoding of
    any other key that the module encrypts returns false. Either way
    [compare] hex-decodes the candidate and makes exactly one module call,
    an [encrypt] under the handle's IV with key id 0. *)
Lemma compare_hex_ciphertext {SML : SecurityModuleLaws SM}
    (w w1 : world M) (m : M) (raw_key iv c : bytes) :
  init_hsm w = (Ok (Some m), w1) -> is_ready m = true ->
  hsm_encrypt m raw_key iv 0 = Ok c ->
  let handle := SecretObj.__init__ (hexlify c) iv None in
  SecretObj.compare (hexlify raw_key) (handle, w) =
    (Ok true, (handle, add_call w1 (CallEncrypt raw_key iv 0))) /\
  forall other_key c',
    other_key <> raw_key -> hsm_encrypt m other_key iv 0 = Ok c' ->
    SecretObj.compare (hexlify other_key) (handle, w) =
      (Ok false, (handle, add_call w1 (CallEncrypt other_key iv 0))).
Proof.
  intros Hi Hr He handle. split.
  - rewrite (compare_ready w w1 m handle raw_key c Hi Hr He).
    cbn [SecretObj.val SecretObj.iv handle SecretObj.__init__].
    replace (bytes_eqb (hexlify c) (hexlify c)) with true
      by (symmetry; now apply bytes_eqb_eq).
    reflexivity.
  - intros other_key c' Hneq He'.
    rewrite (compare_ready w w1 m handle other_key c' Hi Hr He').
    cbn [SecretObj.val SecretObj.iv handle SecretObj.__init__].
    rewrite bytes_eqb_neq; [reflexivity|].
    intros E. apply hexlify_inj in E. subst c'.
    apply decrypt_encrypt in He, He'. congruence.
Qed.

(** C4, the code at the failing input. Take a handle as [getKey], [getPin]
    and [_setupKey_] use it, its stored value being the ciphertext
    [encrypt(raw_key, iv)] itself. Then [getKey] gives back [raw_key], but
    [compare] of the hex encoding of [raw_key] returns false: [compare]
    sets the hex encoding of the re-encrypted candidate against the stored
    value, and the two differ in length. *)
Theorem compare_rejects_own_key {SML : SecurityModuleLaws SM}
    (w w1 : world M) (m : M) (raw_key iv c : bytes) :
  init_hsm w = (Ok (Some m), w1) -> is_ready m = true ->
  hsm_encrypt m raw_key iv 0 = Ok c -> c <> [] ->
  let handle := SecretObj.__init__ c iv None in
  fst (SecretObj.getKey (handle, w)) = Ok raw_key /\
  fst (SecretObj.getPin (handle, w)) = Ok raw_key /\
  SecretObj.compare (hexlify raw_key) (handle, w) =
    (Ok false, (handle, add_call w1 (CallEncrypt raw_key iv 0))).
Proof.
  intros Hi Hr He Hc handle.
  assert (Hd : decrypt c iv 0 w = (Ok raw_key, add_call w1 (CallDecrypt c iv 0))).
  { unfold decrypt, bind. rewrite (get_hsm_ready _ _ _ Hi Hr). cbn [log_call].
    unfold lift. now rewrite (decrypt_encrypt _ _ _ _ _ He). }
  split; [|split].
  - unfold SecretObj.getKey, bind, SecretObj.self, SecretObj.in_world.
    cbn [fst snd]. change (SecretObj.val handle) with c.
    change (SecretObj.iv handle) with iv. now rewrite Hd.
  - unfold SecretObj.getPin, bind, SecretObj.self, SecretObj.in_world.
    cbn [fst snd]. change (SecretObj.val handle) with c.
    change (SecretObj.iv handle) with iv. now rewrite Hd.
  - rewrite (compare_ready w w1 m handle raw_key c Hi Hr He).
    change (SecretObj.val handle) with c. change (SecretObj.iv handle) with iv.
    rewrite bytes_eqb_neq; [reflexivity|].
    intros E. apply (f_equal (@length byte)) in E. rewrite hexlify_length in E.
    destruct c; [congruence | simpl in E; lia].
Qed.
End CompareFacts.

(** The accepting case run on the software module: the key "key" under the
    IV "*", the stored value being the hex form of the ciphertext. *)
Lemma compare_hex_ciphertext_toy :
  let raw_key := [x6b; x65; x79] in
  let handle := SecretObj.__init__ (hexlify (toy_crypt raw_key [x2a])) [x2a] None in
  fst (SecretObj.compare (hexlify raw_key) (handle, toy_world [])) = Ok true /\
  fst (SecretObj.compare (hexlify [x6b; x65; x7a]) (handle, toy_world [])) = Ok false.
Proof.
  cbv zeta.
  destruct (@compare_hex_ciphertext _ _ toy_module_laws (toy_world []) _ _
              [x6b; x65; x79] [x2a] _ eq_refl eq_refl eq_refl) as [H1 H2].
  split.
  - now rewrite H1.
  - now rewrite (H2 [x6b; x65; x7a] _ ltac:(discriminate) eq_refl).
Defined.

(** C4, run on the software module: the handle holds the ciphertext of the
    key "key" under the IV "*"; [getKey] returns the key and [compare]
    rejects it. *)
Lemma compare_rejects_own_key_toy :
  let raw_key := [x6b; x65; x79] in
  let handle := SecretObj.__init__ (toy_crypt raw_key [x2a]) [x2a] None in
  fst (encrypt raw_key [x2a] 0 (toy_world [])) = Ok (toy_crypt raw_key [x2a]) /\
  fst (SecretObj.getKey (handle, toy_world [])) = Ok raw_key /\
  fst (SecretObj.compare (hexlify raw_key) (handle, toy_world [])) = Ok false.
Proof.
  cbv zeta.
  destruct (@compare_rejects_own_key toy_module toy_security_module toy_module_laws
              (toy_world []) (toy_world []) {| toy_ready := true; toy_pool := [] |}
              [x6b; x65; x79] [x2a] (toy_crypt [x6b; x65; x79] [x2a])
              eq_refl eq_refl eq_refl ltac:(discriminate)) as (Hk & _ & Hcmp).
  split; [reflexivity|]. split; [exact Hk | now rewrite Hcmp].
Defined.

(** ** get_rand_digit_str *)

Lemma clen_table : forallb clen_agrees (seq 0 4097) = true.
Proof. vm_compute. reflexivity. Qed.

Lemma clen_of_round_half_up (length : Z) :
  0 <= length <= 4096 -> clen_of length = Ok (round_half_up_2_4 length).
Proof.
  intros H. pose proof clen_table as T. rewrite forallb_forall in T.
  specialize (T (Z.to_nat length)). unfold clen_agrees in T.
  rewrite Z2Nat.id in T by lia.
  destruct (clen_of length) as [c|e].
  - f_equal. apply Z.eqb_eq. apply T. apply in_seq. lia.
  - discriminate T. apply in_seq. lia.
Qed.

Lemma forallb_firstn {A} (p : A -> bool) (n : nat) (l : list A) :
  forallb p l = true -> forallb p (firstn n l) = true.
Proof.
  revert n. induction l as [|x l IH]; intros [|n] H; simpl in *; auto.
  apply andb_true_iff in H. destruct H as [-> H]. simpl. auto.
Qed.

Lemma forallb_repeat {A} (p : A -> bool) (x : A) (n : nat) :
  p x = true -> forallb p (repeat x n) = true.
Proof. intros H. induction n; simpl; [reflexivity | now rewrite H]. Qed.

(** Left-padding with zeros or cutting, as the last lines of
    [get_rand_digit_str] do, yields exactly [length] digits. *)
Lemma pad_or_cut (s : bytes) (length : Z) :
  0 <= length -> forallb is_digit s = true ->
  let r := if len s <? length then str_mul x30 (length - len s) ++ s
           else if length <? len s then slice_to s length
           else s in
  len r = length /\ forallb is_digit r = true.
Proof.
  intros Hl Hd. cbv zeta.
  destruct (len s <? length) eqn:E1; [|destruct (length <? len s) eqn:E2].
  - apply Z.ltb_lt in E1. split.
    + rewrite len_app. unfold str_mul, len at 1. rewrite repeat_length. unfold len in *. lia.
    + rewrite forallb_app. unfold str_mul. rewrite forallb_repeat by reflexivity. exact Hd.
  - apply Z.ltb_lt in E2. rewrite slice_to_firstn by lia. split.
    + unfold len in *. rewrite length_firstn. lia.
    + now apply forallb_firstn.
  - apply Z.ltb_ge in E1, E2. split; [lia | exact Hd].
Qed.

Section RandDigitsFacts.
Context {M : Type} {SM : SecurityModule M} {SML : SecurityModuleLaws SM}.

Lemma get_rand_digit_str_one (w : world M) :
  get_rand_digit_str 1 w =
  (Raise (ValueError "get_rand_digit_str only works for values > 1"), w).
Proof. reflexivity. Qed.

Lemma get_rand_digit_str_ready (w w1 : world M) (m : M) (length : Z) :
  init_hsm w = (Ok (Some m), w1) -> is_ready m = true ->
  2 <= length <= 4096 ->
  exists s m',
    get_rand_digit_str length w =
      (Ok s, after_random w1 (round_half_up_2_4 length) m') /\
    len s = length /\ forallb is_digit s = true.
Proof.
  intros Hi Hr Hl.
  assert (Hc : 1 <= round_half_up_2_4 length).
  { unfold round_half_up_2_4. apply Z.div_le_lower_bound; lia. }
  destruct (random_length m (round_half_up_2_4 length) Hr ltac:(lia))
    as (r & m' & Hrand & Hlen & _).
  assert (Hne : r <> []) by (intros ->; unfold len in Hlen; simpl in Hlen; lia).
  pose proof (format_d_digits (Z.of_N (be_value r)) ltac:(lia)) as [Hd _].
  destruct (pad_or_cut (format_d (Z.of_N (be_value r))) length ltac:(lia) Hd)
    as [Hrl Hrd].
  eexists _, m'. split; [|split; [exact Hrl | exact Hrd]].
  unfold get_rand_digit_str.
  replace (length =? 1) with false by (symmetry; apply Z.eqb_neq; lia).
  unfold bind, lift. rewrite clen_of_round_half_up by lia.
  rewrite (geturandom_ready _ _ _ _ _ true _ Hi Hr Hrand).
  rewrite (int16_hexlify _ Hne). reflexivity.
Qed.

(** The module is asked for [int(length / 2.4 + 0.5)] bytes, whatever the
    length and whatever the module then does; when that number cannot be
    computed nothing is asked for. *)
Lemma get_rand_digit_str_requests (w w1 : world M) (m : M) (length : Z) :
  init_hsm w = (Ok (Some m), w1) -> is_ready m = true -> length <> 1 ->
  match clen_of length with
  | Ok clen => trace (snd (get_rand_digit_str length w)) = trace w ++ [CallRandom clen]
  | Raise e => get_rand_digit_str length w = (Raise e, w)
  end.
Proof.
  intros Hi Hr Hl. unfold get_rand_digit_str.
  replace (length =? 1) with false by (symmetry; apply Z.eqb_neq; exact Hl).
  unfold bind at 1. unfold lift at 1.
  destruct (clen_of length) as [clen|e]; [|reflexivity].
  destruct (init_hsm_store _ _ _ Hi) as (_ & _ & Htr).
  unfold bind at 1. unfold geturandom, bind.
  rewrite (get_hsm_ready _ _ _ Hi Hr). cbn [log_call].
  destruct (hsm_random m clen) as [[r|e] m']; cbn [update_hsm lift ret].
  - destruct (int16 (hexlify r)); cbn; now rewrite Htr.
  - cbn. now rewrite Htr.
Qed.

(** C8 (as amended). With the security module set up,
    [get_rand_digit_str(16)] returns a string of exactly 16 decimal digits
    whatever bytes the module hands out, after asking it for 7 bytes;
    [get_rand_digit_str(1)] always raises ValueError; for every other
    length the number of bytes asked for is the value of
    [int(length / 2.4 + 0.5)] in floating point (and no bytes are asked for
    when that value cannot be computed); for a length from 2 to 4096 this is
    [length / 2.4] rounded to the nearest integer, halves up, and the result
    has exactly [length] digits. *)
Theorem get_rand_digit_str_spec (w w1 : world M) (m : M) :
  init_hsm w = (Ok (Some m), w1) -> is_ready m = true ->
  (exists s m',
     get_rand_digit_str 16 w = (Ok s, after_random w1 7 m') /\
     trace (after_random w1 7 m') = trace w ++ [CallRandom 7] /\
     len s = 16 /\ forallb is_digit s = true) /\
  (forall w0 : world M,
     get_rand_digit_str 1 w0 =
     (Raise (ValueError "get_rand_digit_str only works for values > 1"), w0)) /\
  (forall length clen, length <> 1 -> clen_of length = Ok clen ->
     trace (snd (get_rand_digit_str length w)) = trace w ++ [CallRandom clen]) /\
  (forall length e, length <> 1 -> clen_of length = Raise e ->
     get_rand_digit_str length w = (Raise e, w)) /\
  (forall length, 2 <= length <= 4096 ->
     clen_of length = Ok (round_half_up_2_4 length) /\
     exists s m',
       get_rand_digit_str length w =
         (Ok s, after_random w1 (round_half_up_2_4 length) m') /\
       trace (after_random w1 (round_half_up_2_4 length) m') =
         trace w ++ [CallRandom (round_half_up_2_4 length)] /\
       len s = length /\ forallb is_digit s = true).
Proof.
  intros Hi Hr.
  assert (Htr : forall n m', trace (after_random w1 n m') = trace w ++ [CallRandom n]).
  { intros n m'. cbn. destruct (init_hsm_store _ _ _ Hi) as (_ & _ & ->). reflexivity. }
  split; [|split; [|split; [|split]]].
  - destruct (get_rand_digit_str_ready w w1 m 16 Hi Hr ltac:(lia))
      as (s & m' & H1 & H2 & H3).
    exists s, m'. change (round_half_up_2_4 16) with 7 in H1. auto.
  - intros w0. apply get_rand_digit_str_one.
  - intros length clen Hl Hc.
    pose proof (get_rand_digit_str_requests w w1 m length Hi Hr Hl) as Hreq.
    now rewrite Hc in Hreq.
  - intros length e Hl Hc.
    pose proof (get_rand_digit_str_requests w w1 m length Hi Hr Hl) as Hreq.
    now rewrite Hc in Hreq.
  - intros length Hl. split; [apply clen_of_round_half_up; lia|].
    destruct (get_rand_digit_str_ready w w1 m length Hi Hr Hl)
      as (s & m' & H1 & H2 & H3).
    exists s, m'. auto.
Qed.
End RandDigitsFacts.

(** C8, run on the software module handing out seven bytes ff: the
    seventeen digits of [2^56 - 1] are cut to sixteen. *)
Lemma get_rand_digit_str_toy :
  exists s, fst (get_rand_digit_str 16 (toy_world (repeat xff 7))) = Ok s /\
            len s = 16 /\ forallb is_digit s = true.
Proof.
  destruct (@get_rand_digit_str_spec _ _ toy_module_laws (toy_world (repeat xff 7)) _ _
              eq_refl eq_refl) as [(s & m' & H & _ & Hl & Hd) _].
  exists s. rewrite H. auto.
Defined.

(** Outside the range from 0 to 4096 the float computation need not agree
    with rounding halves up: [int] truncates toward zero, so a length of -3
    gives 0 where rounding -1.25 gives -1. *)
Lemma clen_of_negative :
  clen_of (-3) = Ok 0 /\ round_half_up_2_4 (-3) = -1.
Proof. split; vm_compute; reflexivity. Qed.

(** C8, counterexample: for length 3 one byte is drawn, whereas
    ceil(3 / 2.4) = 2. *)
Lemma get_rand_digit_str_draws_less_than_ceil :
  trace (snd (get_rand_digit_str 3 (toy_world [xff; xff]))) = [CallRandom 1] /\
  ceil_2_4 3 = 2.
Proof. split; vm_compute; reflexivity. Qed.

(** ** SecretObj: the cached key *)

Lemma nth_error_list_update_other {A} (l : list A) (i j : nat) (x : A) :
  i <> j -> nth_error (list_update l i x) j = nth_error l j.
Proof.
  revert i j. induction l as [|h t IH]; intros [|i] [|j] H; simpl; auto; try congruence.
Qed.

Lemma nth_error_list_update_same {A} (l : list A) (i : nat) (x : A) :
  (i < length l)%nat -> nth_error (list_update l i x) i = Some x.
Proof.
  revert i. induction l as [|h t IH]; intros [|i] H; simpl in *; try lia; auto.
  apply IH. lia.
Qed.

Section WorldHeap.
Context {M : Type} {SM : SecurityModule M}.

Lemma init_hsm_heap (w : world M) : heap (snd (init_hsm w)) = heap w.
Proof.
  unfold init_hsm. destruct (app_store w); [reflexivity|].
  destruct (create_hsm_object (app_config w)); reflexivity.
Qed.

Lemma get_hsm_heap (b : bool) (w : world M) : heap (snd (get_hsm b w)) = heap w.
Proof.
  unfold get_hsm, bind. pose proof (init_hsm_heap w) as Hh.
  destruct (init_hsm w) as [[[m|]|e] w']; cbn [snd] in *; try assumption.
  destruct (b && negb (is_ready m)); assumption.
Qed.

Lemma decrypt_heap (x iv : bytes) (id : Z) (w : world M) :
  heap (snd (decrypt x iv id w)) = heap w.
Proof.
  unfold decrypt, bind. pose proof (get_hsm_heap true w) as Hh.
  destruct (get_hsm true w) as [[m|e] w']; cbn [snd] in *; assumption.
Qed.

Lemma encrypt_heap (x iv : bytes) (id : Z) (w : world M) :
  heap (snd (encrypt x iv id w)) = heap w.
Proof.
  unfold encrypt, bind. pose proof (get_hsm_heap true w) as Hh.
  destruct (get_hsm true w) as [[m|e] w']; cbn [snd] in *; assumption.
Qed.

Lemma decrypt_ready (w w1 : world M) (m : M) (data iv : bytes) (id : Z) :
  init_hsm w = (Ok (Some m), w1) -> is_ready m = true ->
  decrypt data iv id w = (hsm_decrypt m data iv id, add_call w1 (CallDecrypt data iv id)).
Proof.
  intros Hi Hr. unfold decrypt, bind.
  rewrite (get_hsm_ready _ _ _ Hi Hr). reflexivity.
Qed.
End WorldHeap.

Section CachedKey.
Context {M : Type} {SM : SecurityModule M} {BC : BlockCipher} {H : Hmac}
        {I : Interpreter}.

Section InCachedState.
Variables (o : SecretObj.t) (w : world M) (l : nat) (k : bytes).
Hypothesis Hc : cached (o, w) l k.

Lemma get_bkey_cached : SecretObj.get_bkey (o, w) = (Ok (Some l), (o, w)).
Proof.
  destruct Hc as (Hb & _ & _). cbn [fst] in Hb.
  unfold SecretObj.get_bkey, bind, SecretObj.self. cbn [fst]. now rewrite Hb.
Qed.

Lemma setupKey_cached : SecretObj._setupKey_ (o, w) = (Ok tt, (o, w)).
Proof. unfold SecretObj._setupKey_, bind. now rewrite get_bkey_cached. Qed.

Lemma bkey_bytes_cached : SecretObj.bkey_bytes (o, w) = (Ok k, (o, w)).
Proof.
  unfold SecretObj.bkey_bytes, bind. rewrite get_bkey_cached.
  destruct Hc as (_ & _ & Hn). cbn [snd] in Hn.
  unfold SecretObj.in_world, deref. cbn [fst snd]. now rewrite Hn.
Qed.

Lemma clearKey_cached :
  SecretObj._clearKey_ (SecretObj.preserve o) (o, w) = (Ok tt, (o, w)).
Proof.
  destruct Hc as (_ & Hp & _). cbn [fst] in Hp. now rewrite Hp.
Qed.

(** On a cached key, [hmac_digest] and [aes_decrypt] leave the handle
    and the process state as they are. *)
Lemma hmac_digest_cached (data : bytes) (algo : hash_algo) :
  SecretObj.hmac_digest data algo (o, w) =
  (Ok (hmac_new_digest k data algo), (o, w)).
Proof.
  unfold SecretObj.hmac_digest, bind.
  rewrite setupKey_cached, bkey_bytes_cached.
  unfold SecretObj.self. cbn [fst]. rewrite clearKey_cached.
  unfold str. destruct pver_gt_2_6; reflexivity.
Qed.

Lemma aes_decrypt_cached (data : bytes) :
  SecretObj.aes_decrypt data (o, w) =
  ((aes <- AES_new k MODE_ECB [] ;; cipher_decrypt aes data), (o, w)).
Proof.
  unfold SecretObj.aes_decrypt, bind.
  rewrite setupKey_cached, bkey_bytes_cached. unfold lift.
  destruct (AES_new k MODE_ECB []) as [aes|e]; [|reflexivity].
  cbn [rbind]. destruct (cipher_decrypt aes data); [|reflexivity].
  unfold SecretObj.self. cbn [fst]. now rewrite clearKey_cached.
Qed.

Lemma in_world_cached {A} (f : Eff (world M) A) :
  heap (snd (f w)) = heap w ->
  cached (snd (SecretObj.in_world f (o, w))) l k.
Proof.
  intros Hh. unfold SecretObj.in_world. cbn [fst snd].
  destruct (f w) as [r w'] eqn:E. cbn [snd] in *.
  destruct Hc as (Hb & Hp & Hn). repeat split; cbn [fst snd] in *; auto.
  now rewrite Hh.
Qed.

Lemma run_op_cached (op : SecretObj.op) : cached (SecretObj.run_op op (o, w)) l k.
Proof.
  destruct op as [| |key|d a|d]; cbn [SecretObj.run_op].
  - unfold SecretObj.getKey, bind, SecretObj.self. cbn [fst].
    pose proof (in_world_cached (decrypt (SecretObj.val o) (SecretObj.iv o) 0)
                  (decrypt_heap _ _ _ _)) as Hw.
    destruct (SecretObj.in_world _ _) as [[r|e] s']; exact Hw.
  - unfold SecretObj.getPin, bind, SecretObj.self. cbn [fst].
    pose proof (in_world_cached (decrypt (SecretObj.val o) (SecretObj.iv o) 0)
                  (decrypt_heap _ _ _ _)) as Hw.
    destruct (SecretObj.in_world _ _) as [[r|e] s']; exact Hw.
  - unfold SecretObj.compare, bind, SecretObj.self, lift. cbn [fst].
    destruct (unhexlify key) as [bh|e]; [|exact Hc].
    pose proof (in_world_cached (encrypt bh (SecretObj.iv o) 0)
                  (encrypt_heap _ _ _ _)) as Hw.
    destruct (SecretObj.in_world _ _) as [[r|e] s']; exact Hw.
  - rewrite hmac_digest_cached. exact Hc.
  - rewrite aes_decrypt_cached. exact Hc.
Qed.
End InCachedState.

Lemma run_ops_cached (ops : list SecretObj.op) :
  forall s l k, cached s l k -> cached (SecretObj.run_ops ops s) l k.
Proof.
  unfold SecretObj.run_ops.
  induction ops as [|op ops IH]; intros [o w] l k Hc; [exact Hc|].
  cbn [fold_left]. apply IH. now apply run_op_cached.
Qed.

(** Destroying a handle with a cached key zeroes the buffer and removes
    the attribute. *)
Lemma del_cached (s : SecretObj.t * world M) (l : nat) (k : bytes) :
  cached s l k ->
  let s' := snd (SecretObj.__del__ s) in
  SecretObj.bkey (fst s') = Deleted /\
  nth_error (heap (snd s')) l = Some (repeat x00 (length k)).
Proof.
  destruct s as [o w]. intros Hc.
  unfold SecretObj.__del__, SecretObj._clearKey_. cbn [negb snd].
  unfold bind. rewrite (get_bkey_cached _ _ _ _ Hc).
  destruct Hc as (_ & _ & Hn). cbn [snd] in Hn.
  unfold SecretObj.in_world, zerome. cbn [fst snd]. rewrite Hn.
  cbn. split; [reflexivity|].
  apply nth_error_list_update_same. apply nth_error_Some. congruence.
Qed.
End CachedKey.

Section FreshKey.
Context {M : Type} {SM : SecurityModule M} {BC : BlockCipher} {H : Hmac}
        {I : Interpreter}.

Lemma setupKey_fresh (w w1 : world M) (m : M) (val iv akey k : bytes) :
  init_hsm w = (Ok (Some m), w1) -> is_ready m = true ->
  hsm_decrypt m val iv 0 = Ok akey -> unhexlify akey = Ok k ->
  exists s1,
    SecretObj._setupKey_ (SecretObj.__init__ val iv None, w) = (Ok tt, s1) /\
    cached s1 (S (length (heap w))) k.
Proof.
  intros Hi Hr Hd Hu.
  destruct (init_hsm_store _ _ _ Hi) as (_ & Hh & _).
  unfold SecretObj._setupKey_, bind, SecretObj.get_bkey, bind, SecretObj.self.
  cbn [fst snd SecretObj.bkey SecretObj.__init__ ret].
  unfold SecretObj.in_world at 1. cbn [fst snd SecretObj.val SecretObj.iv].
  rewrite (decrypt_ready _ _ _ _ _ _ Hi Hr).
  change (SecretObj.val (SecretObj.__init__ val iv None)) with val.
  change (SecretObj.iv (SecretObj.__init__ val iv None)) with iv.
  rewrite Hd.
  unfold SecretObj.in_world, alloc, lift, SecretObj.assign_bkey, zerome.
  cbn [fst snd]. rewrite Hu. cbn [fst snd heap set_heap add_call].
  assert (Hn : nth_error ((heap w1 ++ [akey]) ++ [k]) (length (heap w1)) = Some akey).
  { rewrite <- app_assoc. rewrite nth_error_app2, Nat.sub_diag by lia. reflexivity. }
  rewrite Hn. eexists. split; [reflexivity|].
  unfold cached. cbn [fst snd SecretObj.bkey SecretObj.preserve SecretObj.set_bkey
                        SecretObj.__init__ heap set_heap].
  rewrite length_app, <- Hh. cbn [length]. rewrite Nat.add_1_r.
  repeat split.
  rewrite nth_error_list_update_other by lia.
  rewrite <- app_assoc. rewrite nth_error_app2 by lia.
  replace (S (length (heap w1)) - length (heap w1))%nat with 1%nat by lia.
  reflexivity.
Qed.

(** C10. A handle constructed without a [preserve] argument has
    [preserve = true]. Once the module decrypts its value to the hex form
    of a key [k], [hmac_digest] returns the HMAC under [k] and
    [aes_decrypt] returns, and after either the key is still cached: the
    attribute [bkey] refers to a buffer holding [k], not zeroed. No
    sequence of further method calls changes that; only the finalizer
    overwrites the buffer with zeros and removes the attribute. *)
Theorem preserved_key_stays_cached
    (w w1 : world M) (m : M) (val iv akey k data : bytes) (algo : hash_algo) :
  init_hsm w = (Ok (Some m), w1) -> is_ready m = true ->
  hsm_decrypt m val iv 0 = Ok akey -> unhexlify akey = Ok k ->
  let handle := SecretObj.__init__ val iv None in
  let l := S (length (heap w)) in
  SecretObj.preserve handle = true /\
  (exists s1,
     SecretObj.hmac_digest data algo (handle, w) =
       (Ok (hmac_new_digest k data algo), s1) /\ cached s1 l k) /\
  (exists s1,
     SecretObj.aes_decrypt data (handle, w) =
       ((aes <- AES_new k MODE_ECB [] ;; cipher_decrypt aes data), s1) /\
     cached s1 l k) /\
  (forall s1 ops, cached s1 l k ->
     let s2 := SecretObj.run_ops ops s1 in
     cached s2 l k /\
     SecretObj.bkey (fst (snd (SecretObj.__del__ s2))) = Deleted /\
     nth_error (heap (snd (snd (SecretObj.__del__ s2)))) l =
       Some (repeat x00 (length k))).
Proof.
  intros Hi Hr Hd Hu handle l.
  destruct (setupKey_fresh w w1 m val iv akey k Hi Hr Hd Hu) as ([o1 w2] & Hs & Hc).
  fold handle in Hs. fold l in Hc.
  split; [reflexivity|]. split; [|split].
  - exists (o1, w2). split; [|exact Hc].
    unfold SecretObj.hmac_digest, bind. rewrite Hs.
    rewrite (bkey_bytes_cached _ _ _ _ Hc).
    unfold SecretObj.self. cbn [fst]. rewrite (clearKey_cached _ _ _ _ Hc).
    unfold str. destruct pver_gt_2_6; reflexivity.
  - exists (o1, w2). split; [|exact Hc].
    unfold SecretObj.aes_decrypt, bind. rewrite Hs.
    rewrite (bkey_bytes_cached _ _ _ _ Hc). unfold lift.
    destruct (AES_new k MODE_ECB []) as [aes|e]; [|reflexivity].
    cbn [rbind]. destruct (cipher_decrypt aes data); [|reflexivity].
    unfold SecretObj.self. cbn [fst]. now rewrite (clearKey_cached _ _ _ _ Hc).
  - intros s1 ops Hc1 s2.
    pose proof (run_ops_cached ops s1 l k Hc1) as Hc2. fold s2 in Hc2.
    split; [exact Hc2|]. exact (del_cached s2 l k Hc2).
Qed.
End FreshKey.

(** C10, run on the software module: the key "key!" stored under the IV
    "*" stays in buffer 1 after [hmac_digest]. *)
Lemma preserved_key_toy :
  let k := [x6b; x65; x79; x21] in
  let handle := SecretObj.__init__ (toy_crypt (hexlify k) [x2a]) [x2a] None in
  exists s1,
    @SecretObj.hmac_digest _ _ toy_hmac python_2_7 [x01; x02; x03; x04] SHA1
      (handle, toy_world []) = (Ok [x6a; x67; x7a; x25], s1) /\
    cached s1 1 k /\
    nth_error (heap (snd (snd (@SecretObj.__del__ _ s1)))) 1 = Some [x00; x00; x00; x00].
Proof.
  cbv zeta.
  destruct (@preserved_key_stays_cached toy_module toy_security_module
              xor_cipher toy_hmac python_2_7
              (toy_world []) (toy_world []) {| toy_ready := true; toy_pool := [] |}
              (toy_crypt (hexlify [x6b; x65; x79; x21]) [x2a]) [x2a]
              (hexlify [x6b; x65; x79; x21]) [x6b; x65; x79; x21]
              [x01; x02; x03; x04] SHA1 eq_refl eq_refl eq_refl eq_refl)
    as (_ & (s1 & Hh & Hc) & _ & Hrest).
  exists s1. split; [exact Hh|]. split; [exact Hc|].
  destruct (Hrest s1 [] Hc) as (_ & _ & Hz). exact Hz.
Defined.

(** ** urandom *)

Section UrandomFacts.
Context {M : Type} {SM : SecurityModule M}.

(** Twelve bytes ff make [random()] return 1.0: the conversion of
    [2^96 - 1] to a float rounds up to [2^96]. *)
Lemma random_rounds_to_one (w w1 : world M) (m m' : M) :
  init_hsm w = (Ok (Some m), w1) -> is_ready m = true ->
  hsm_random m 12 = (Ok (repeat xff 12), m') ->
  urandom.random w = (Ok (PyFloat f1_0), after_random w1 12 m').
Proof.
  intros Hi Hr Hrand. unfold urandom.random, bind.
  change urandom.precision with 12.
  rewrite (geturandom_ready _ _ _ _ _ true _ Hi Hr Hrand).
  reflexivity.
Qed.
End UrandomFacts.

(** C3, the code at the failing inputs. When the module hands out the byte
    f0 followed by zeros, [random()] is 0.9375 and [randint(-5, 0)] returns
    0, the upper bound: [int] truncates -0.3125 toward zero. When it hands
    out twelve bytes ff, [random()] is 1.0, so that [uniform(0, 1)] returns
    1.0 and [randint(0, 10)] returns 10, both outside the half-open
    interval, and [choice] on a three-element list raises IndexError. *)
Theorem urandom_reaches_upper_bound :
  fst (urandom.randint (PyInt (-5)) (Some (PyInt 0)) (toy_world [xf0])) = Ok 0 /\
  fst (urandom.random (toy_world (repeat xff 12))) = Ok (PyFloat f1_0) /\
  fst (urandom.uniform (PyInt 0) (Some (PyInt 1)) (toy_world (repeat xff 12)))
    = Ok (PyFloat f1_0) /\
  in_half_open 0 1 (PyFloat f1_0) = false /\
  fst (urandom.randint (PyInt 0) (Some (PyInt 10)) (toy_world (repeat xff 12))) = Ok 10 /\
  fst (urandom.choice [1; 2; 3] (toy_world (repeat xff 12)))
    = Raise (IndexError "list index out of range").
Proof. repeat split; vm_compute; reflexivity. Qed.

(** On bytes in the middle of the range the results are inside. *)
Lemma urandom_inside_examples :
  fst (urandom.randint (PyInt 0) (Some (PyInt 10)) (toy_world [x80])) = Ok 5 /\
  fst (urandom.randint (PyInt (-5)) (Some (PyInt 5)) (toy_world [x10])) = Ok (-4) /\
  (exists x, fst (urandom.uniform (PyInt (-5)) (Some (PyInt 0)) (toy_world [xf0])) = Ok x /\
             in_half_open (-5) 0 x = true).
Proof.
  split; [vm_compute; reflexivity|]. split; [vm_compute; reflexivity|].
  eexists. split; vm_compute; reflexivity.
Qed.

(** ** Sign *)

Section SignFacts.
Context {R : RSA}.

(** C1, the code on the PKCS#1 v1.5 branch: [verify] returns false for
    every key pair, message and signature, in particular for the signature
    [sign] produced, because the branch never assigns the result [r]. *)
Theorem verify_pkcs1_15_returns_false
    (keys : Sign.t) (s : pystring) (signature : bytes) :
  Sign.verify false keys s signature = false.
Proof.
  unfold Sign.verify.
  destruct (importKey (Sign.public keys)) as [k|]; [|reflexivity].
  cbn [rbind]. destruct (long signature) as [sg|]; [|reflexivity].
  cbn [rbind]. destruct (pkcs1_15_verify k _ sg); reflexivity.
Qed.

(** X22. The raw RSA branch does return the verdict of the key: a signature
    made by [sign] verifies whenever the RSA primitive accepts it. *)
Lemma verify_sign_raw_rsa
    (keys : Sign.t) (s : pystring) (kpriv kpub : RSAkey) (sg : Z) :
  importKey (Sign.private keys) = Ok kpriv ->
  importKey (Sign.public keys) = Ok kpub ->
  rsa_sign kpriv (sha256_digest (encode_utf8 s)) = Ok sg -> 0 <= sg ->
  rsa_verify kpub (sha256_digest (encode_utf8 s)) sg = Ok true ->
  Sign.sign true keys s = Ok (format_d sg) /\
  Sign.verify true keys s (format_d sg) = true.
Proof.
  intros Hpriv Hpub Hs Hnn Hv. split.
  - unfold Sign.sign. rewrite Hpriv. cbn [rbind]. rewrite Hs. reflexivity.
  - unfold Sign.verify. rewrite Hpub. cbn [rbind].
    rewrite (long_format_d _ Hnn). cbn [rbind]. rewrite Hv. reflexivity.
Qed.
End SignFacts.

(** The signer run on textbook RSA and the message "msg": the raw RSA
    branch verifies its signature "1431" and rejects it with one character
    changed; the PKCS#1 v1.5 branch rejects the signature it made. *)
Lemma sign_verify_toy :
  Sign.sign true toy_keys msg = Ok [x31; x34; x33; x31] /\
  Sign.verify true toy_keys msg [x31; x34; x33; x31] = true /\
  Sign.verify true toy_keys msg [x31; x34; x33; x32] = false /\
  Sign.sign false toy_keys msg = Ok [x05] /\
  Sign.verify false toy_keys msg [x05] = false /\
  ~ sign_verify_roundtrip false.
Proof.
  assert (Hs : Sign.sign false toy_keys msg = Ok [x05]) by (vm_compute; reflexivity).
  do 3 (split; [vm_compute; reflexivity|]).
  split; [exact Hs|]. split; [vm_compute; reflexivity|].
  intros Hrt. specialize (Hrt toy_keys msg [x05] Hs).
  vm_compute in Hrt. discriminate.
Qed.

(** * Further properties *)

(** ** The handle: lazy creation and the readiness guard *)

Section HandleFacts.
Context {M : Type} {SM : SecurityModule M}.


(** X2. On a module that is not set up, [encrypt], [decrypt] and
    [geturandom] raise "hsm not ready!" and the module is never called. *)
Theorem not_ready_guard (w w1 : world M) (m : M) (data iv : bytes) (id n : Z) (hex : bool) :
  init_hsm w = (Ok (Some m), w1) -> is_ready m = false ->
  encrypt data iv id w = (Raise (HSMException "hsm not ready!"), w1) /\
  decrypt data iv id w = (Raise (HSMException "hsm not ready!"), w1) /\
  geturandom n hex w = (Raise (HSMException "hsm not ready!"), w1) /\
  trace w1 = trace w.
Proof.
  intros Hi Hn.
  assert (Hg : get_hsm true w = (Raise (HSMException "hsm not ready!"), w1)).
  { unfold get_hsm, bind. rewrite Hi, Hn. reflexivity. }
  repeat split.
  - unfold encrypt, bind. now rewrite Hg.
  - unfold decrypt, bind. now rewrite Hg.
  - unfold geturandom, bind. now rewrite Hg.
  - now destruct (init_hsm_store _ _ _ Hi) as (_ & _ & ->).
Qed.

(** X3. With the module set up, [decrypt] undoes [encrypt] under the same
    IV and key id; the two calls reach the module in this order. *)
Theorem decrypt_after_encrypt {SML : SecurityModuleLaws SM}
    (w w1 : world M) (m : M) (data iv c : bytes) (id : Z) :
  init_hsm w = (Ok (Some m), w1) -> is_ready m = true ->
  hsm_encrypt m data iv id = Ok c ->
  exists w2 w3,
    encrypt data iv id w = (Ok c, w2) /\
    decrypt c iv id w2 = (Ok data, w3) /\
    trace w3 = trace w ++ [CallEncrypt data iv id; CallDecrypt c iv id].
Proof.
  intros Hi Hr He.
  destruct (init_hsm_store _ _ _ Hi) as (Hs & _ & Ht).
  exists (add_call w1 (CallEncrypt data iv id)).
  exists (add_call (add_call w1 (CallEncrypt data iv id)) (CallDecrypt c iv id)).
  split; [|split].
  - rewrite (encrypt_ready _ _ _ _ _ _ Hi Hr), He. reflexivity.
  - assert (Hi2 : init_hsm (add_call w1 (CallEncrypt data iv id)) =
                  (Ok (Some m), add_call w1 (CallEncrypt data iv id)))
      by (apply init_hsm_present; exact Hs).
    rewrite (decrypt_ready _ _ _ _ _ _ Hi2 Hr).
    now rewrite (decrypt_encrypt _ _ _ _ _ He).
  - cbn. rewrite Ht, <- app_assoc. reflexivity.
Qed.
End HandleFacts.

Lemma not_ready_guard_toy :
  fst (encrypt [x61] [x2a] 0 fresh_world) = Raise (HSMException "hsm not ready!") /\
  trace (snd (encrypt [x61] [x2a] 0 fresh_world)) = [].
Proof.
  destruct (@not_ready_guard toy_module toy_security_module fresh_world
              (set_store fresh_world (Some (Some {| toy_ready := false; toy_pool := [] |})))
              {| toy_ready := false; toy_pool := [] |}
              [x61] [x2a] 0 0 false eq_refl eq_refl)
    as (He & _ & _ & Ht).
  rewrite He. split; [reflexivity | exact Ht].
Defined.

Lemma decrypt_after_encrypt_toy :
  exists c w2,
    encrypt [x61; x62] [x2a] 0 (toy_world []) = (Ok c, w2) /\
    fst (decrypt c [x2a] 0 w2) = Ok [x61; x62].
Proof.
  destruct (@decrypt_after_encrypt toy_module toy_security_module toy_module_laws
              (toy_world []) (toy_world []) {| toy_ready := true; toy_pool := [] |}
              [x61; x62] [x2a] (toy_crypt [x61; x62] [x2a]) 0 eq_refl eq_refl eq_refl)
    as (w2 & w3 & He & Hd & _).
  eexists _, w2. split; [exact He | now rewrite Hd].
Defined.

(** ** geturandom *)

Lemma hexlify_hexdigits (s : bytes) : forallb is_hexdigit (hexlify s) = true.
Proof.
  induction s as [|b s IH]; [reflexivity|].
  rewrite hexlify_cons. cbn [forallb]. rewrite IH.
  destruct b; reflexivity.
Qed.

Lemma fold_be_bound (s : bytes) : forall acc : N,
  (fold_left (fun acc b => 256 * acc + Byte.to_N b) s acc
   < (acc + 1) * 256 ^ N.of_nat (length s))%N.
Proof.
  induction s as [|b s IH]; intros acc.
  - cbn. lia.
  - cbn [fold_left length]. specialize (IH (256 * acc + Byte.to_N b)%N).
    pose proof (Byte.to_N_bounded b) as Hb.
    rewrite Nat2N.inj_succ, N.pow_succ_r by lia.
    eapply N.lt_le_trans; [exact IH|].
    replace ((acc + 1) * (256 * 256 ^ N.of_nat (length s)))%N
      with ((256 * acc + 256) * 256 ^ N.of_nat (length s))%N by lia.
    apply N.mul_le_mono_r. lia.
Qed.

Lemma be_value_bound (s : bytes) : 0 <= Z.of_N (be_value s) < 2 ^ (8 * len s).
Proof.
  split; [lia|]. pose proof (fold_be_bound s 0%N) as H. fold (be_value s) in H.
  rewrite N.add_0_l, N.mul_1_l in H.
  apply N2Z.inj_lt in H. rewrite N2Z.inj_pow in H.
  unfold len. rewrite Z.pow_mul_r by lia.
  rewrite nat_N_Z in H. exact H.
Qed.

Section GeturandomFacts.
Context {M : Type} {SM : SecurityModule M} {SML : SecurityModuleLaws SM}.

(** X4. With the module set up, [geturandom(n)] makes one call of the
    module's [random] and returns its [n] bytes; with [hex] set it returns
    their hex form, [2 n] lowercase hexadecimal digits whose value as a
    base-16 integer lies in [0, 2^(8n)). *)
Theorem geturandom_hex (w w1 : world M) (m : M) (n : Z) :
  init_hsm w = (Ok (Some m), w1) -> is_ready m = true -> 0 < n ->
  exists r m',
    hsm_random m n = (Ok r, m') /\ len r = n /\
    geturandom n false w = (Ok r, after_random w1 n m') /\
    geturandom n true w = (Ok (hexlify r), after_random w1 n m') /\
    trace (after_random w1 n m') = trace w ++ [CallRandom n] /\
    len (hexlify r) = 2 * n /\
    forallb is_hexdigit (hexlify r) = true /\
    exists v, int16 (hexlify r) = Ok v /\ 0 <= v < 2 ^ (8 * n).
Proof.
  intros Hi Hr Hn.
  destruct (random_length m n Hr ltac:(lia)) as (r & m' & Hrand & Hlen & _).
  exists r, m'. split; [exact Hrand|]. split; [exact Hlen|].
  split; [exact (geturandom_ready _ _ _ _ _ false _ Hi Hr Hrand)|].
  split; [exact (geturandom_ready _ _ _ _ _ true _ Hi Hr Hrand)|].
  split; [cbn; destruct (init_hsm_store _ _ _ Hi) as (_ & _ & ->); reflexivity|].
  split; [unfold len in *; rewrite hexlify_length; lia|].
  split; [apply hexlify_hexdigits|].
  exists (Z.of_N (be_value r)). split.
  - apply int16_hexlify. intros ->. unfold len in Hlen. simpl in Hlen. lia.
  - rewrite <- Hlen. apply be_value_bound.
Qed.
End GeturandomFacts.

Lemma geturandom_hex_toy :
  fst (geturandom 2 true (toy_world [xab; xcd])) = Ok [x61; x62; x63; x64].
Proof.
  destruct (@geturandom_hex toy_module toy_security_module toy_module_laws
              (toy_world [xab; xcd]) (toy_world [xab; xcd])
              {| toy_ready := true; toy_pool := [xab; xcd] |} 2
              eq_refl eq_refl eq_refl)
    as (r & m' & Hrand & _ & _ & Hh & _).
  rewrite Hh. cbn in Hrand. inversion Hrand. reflexivity.
Defined.

(** ** The AES helpers: sizes and errors *)

Section AesEdges.
Context {BC : BlockCipher} {BCL : BlockCipherLaws BC}.

(** X5. [aes_encrypt] always pads: the ciphertext is block-aligned and
    between 1 and 16 bytes longer than the data, a whole extra block when the
    data is already block-aligned. *)
Theorem aes_encrypt_length (key iv data : bytes) :
  len key = 16 \/ len key = 24 \/ len key = 32 -> len iv = 16 ->
  exists c,
    aes_encrypt key iv data MODE_CBC = Ok c /\
    len c = len data + (16 - len data mod 16) /\
    len c mod 16 = 0 /\
    len data < len c <= len data + 16 /\
    (len data mod 16 = 0 -> len c = len data + 16).
Proof.
  intros Hkey Hiv. apply valid_key_cases in Hkey.
  destruct (aes_encrypt_cbc key iv data Hkey Hiv) as [b (Hp & _ & Hal & He)].
  cbv zeta in *.
  set (padded := data ++ repeat b (Z.to_nat (16 - len data mod 16))) in *.
  exists (cbc_encrypt (blocks_of padded) key iv padded).
  assert (Hivn : length iv = 16%nat) by (unfold len in Hiv; lia).
  pose proof (blocks_of_spec padded Hal) as Hbl.
  pose proof (cbc_encrypt_length key _ Hkey iv padded Hivn Hbl) as Hcl.
  assert (Hlen : len (cbc_encrypt (blocks_of padded) key iv padded) = len padded)
    by (unfold len; lia).
  assert (Hpl : len padded = len data + (16 - len data mod 16)).
  { unfold padded. rewrite len_app. unfold len at 2. rewrite repeat_length. lia. }
  split; [exact He|]. rewrite Hlen, Hpl.
  split; [reflexivity|]. split; [now rewrite <- Hpl|]. split; lia.
Qed.
End AesEdges.

Section AesErrors.
Context {BC : BlockCipher}.

Lemma aes_decrypt_empty (key iv : bytes) :
  valid_key key = true -> len iv = 16 ->
  aes_decrypt key iv [] MODE_CBC = Raise (IndexError "string index out of range").
Proof.
  intros Hk Hiv. unfold aes_decrypt. rewrite (AES_new_cbc key iv Hk Hiv). reflexivity.
Qed.

(** X6. For a valid key and IV, [aes_decrypt] of the empty ciphertext
    raises IndexError (there is no last byte to read the padding from), and
    of a ciphertext that is not block-aligned raises ValueError. *)
Theorem aes_decrypt_errors (key iv c : bytes) :
  valid_key key = true -> len iv = 16 ->
  (c = [] ->
   aes_decrypt key iv c MODE_CBC = Raise (IndexError "string index out of range")) /\
  (len c mod 16 <> 0 ->
   aes_decrypt key iv c MODE_CBC =
   Raise (ValueError "Input strings must be a multiple of 16 in length")).
Proof.
  intros Hk Hiv. unfold aes_decrypt. rewrite (AES_new_cbc key iv Hk Hiv).
  cbn [rbind]. split.
  - intros ->. reflexivity.
  - intros Hal. unfold cipher_decrypt.
    replace (len c mod block_size =? 0) with false
      by (symmetry; apply Z.eqb_neq; exact Hal).
    reflexivity.
Qed.

(** X7. [aes_decrypt_b64] on a payload that decodes to fewer than 16 bytes
    raises ValueError (the IV is too short), and on one that decodes to
    exactly 16 bytes, an IV without ciphertext, raises IndexError. *)
Theorem aes_decrypt_b64_short {B : Base64} (key enc d : bytes) :
  valid_key key = true -> b64decode enc = Ok d ->
  (len d < 16 ->
   aes_decrypt_b64 key enc = Raise (ValueError "IV must be 16 bytes long")) /\
  (len d = 16 ->
   aes_decrypt_b64 key enc = Raise (IndexError "string index out of range")).
Proof.
  intros Hk Hd. unfold aes_decrypt_b64. rewrite Hd. cbn [rbind].
  rewrite slice_to_firstn by lia. unfold slice_from.
  assert (Hk0 : (len key =? 0) = false).
  { apply Z.eqb_neq. intros E. unfold valid_key in Hk. rewrite E in Hk. discriminate. }
  split; intros Hl.
  - rewrite firstn_all2 by (unfold len in Hl; lia).
    unfold aes_decrypt, AES_new. rewrite Hk0.
    replace (len d =? block_size) with false
      by (symmetry; apply Z.eqb_neq; unfold block_size; lia).
    reflexivity.
  - rewrite firstn_all2, skipn_all2 by (unfold len in Hl; lia).
    exact (aes_decrypt_empty key d Hk Hl).
Qed.
End AesErrors.

Lemma aes_encrypt_length_xor_cipher :
  exists c,
    @aes_encrypt xor_cipher (repeat x01 16) (repeat x02 16) (repeat x41 32) MODE_CBC
      = Ok c /\ len c = 48.
Proof.
  destruct (@aes_encrypt_length xor_cipher xor_cipher_laws
              (repeat x01 16) (repeat x02 16) (repeat x41 32)
              (or_introl eq_refl) eq_refl) as (c & He & _ & _ & _ & Hl).
  exists c. split; [exact He | exact (Hl eq_refl)].
Defined.

Lemma aes_decrypt_errors_xor_cipher :
  @aes_decrypt xor_cipher (repeat x01 16) (repeat x02 16) [] MODE_CBC
    = Raise (IndexError "string index out of range") /\
  @aes_decrypt xor_cipher (repeat x01 16) (repeat x02 16) [x41] MODE_CBC
    = Raise (ValueError "Input strings must be a multiple of 16 in length").
Proof.
  split.
  - exact (proj1 (@aes_decrypt_errors xor_cipher (repeat x01 16) (repeat x02 16) []
                    eq_refl eq_refl) eq_refl).
  - exact (proj2 (@aes_decrypt_errors xor_cipher (repeat x01 16) (repeat x02 16) [x41]
                    eq_refl eq_refl) ltac:(discriminate)).
Defined.

Lemma aes_decrypt_b64_short_rfc4648 :
  @aes_decrypt_b64 xor_cipher rfc4648 (repeat x01 16) [x54; x57; x46; x75]
    = Raise (ValueError "IV must be 16 bytes long").
Proof.
  exact (proj1 (@aes_decrypt_b64_short xor_cipher rfc4648 (repeat x01 16)
                  [x54; x57; x46; x75] [x4d; x61; x6e] eq_refl eq_refl) eq_refl).
Defined.

(** ** SecretObj: materializing and clearing the key *)

Lemma list_update_middle {A} (h t : list A) (x y : A) :
  list_update (h ++ x :: t) (length h) y = h ++ y :: t.
Proof. induction h as [|a h IH]; simpl; [reflexivity | now rewrite IH]. Qed.

Section KeyLifecycle.
Context {M : Type} {SM : SecurityModule M} {BC : BlockCipher} {H : Hmac}
        {I : Interpreter}.

(** The first [_setupKey_] of a handle: one [decrypt] call, the key in a
    new buffer, and the decrypted hex string overwritten with zeros. *)
Lemma setupKey_materializes (w w1 : world M) (m : M) (o : SecretObj.t) (akey k : bytes) :
  init_hsm w = (Ok (Some m), w1) -> is_ready m = true ->
  SecretObj.bkey o = Bound None ->
  hsm_decrypt m (SecretObj.val o) (SecretObj.iv o) 0 = Ok akey ->
  unhexlify akey = Ok k ->
  exists w2,
    SecretObj._setupKey_ (o, w) =
      (Ok tt, (SecretObj.set_bkey o (Bound (Some (S (length (heap w))))), w2)) /\
    heap w2 = heap w ++ [repeat x00 (length akey); k] /\
    trace w2 = trace w ++ [CallDecrypt (SecretObj.val o) (SecretObj.iv o) 0].
Proof.
  intros Hi Hr Hb Hd Hu.
  destruct (init_hsm_store _ _ _ Hi) as (_ & Hh & Ht).
  unfold SecretObj._setupKey_, bind, SecretObj.get_bkey, bind, SecretObj.self.
  cbn [fst snd]. rewrite Hb. cbn [ret].
  unfold SecretObj.in_world at 1. cbn [fst snd].
  rewrite (decrypt_ready _ _ _ _ _ _ Hi Hr), Hd.
  unfold SecretObj.in_world, alloc, lift, SecretObj.assign_bkey, zerome.
  cbn [fst snd]. rewrite Hu. cbn [fst snd heap set_heap add_call].
  assert (Hn : nth_error ((heap w1 ++ [akey]) ++ [k]) (length (heap w1)) = Some akey).
  { rewrite <- app_assoc. rewrite nth_error_app2, Nat.sub_diag by lia. reflexivity. }
  rewrite Hn.
  replace (length (heap w1 ++ [akey])) with (S (length (heap w)))
    by (rewrite length_app, Hh; cbn [length]; lia).
  eexists. split; [reflexivity|]. split.
  - cbn [heap set_heap]. rewrite <- app_assoc. cbn [app].
    rewrite list_update_middle, Hh. reflexivity.
  - cbn. now rewrite Ht.
Qed.

(** X8. On first use, a handle turns the module's decryption of its value
    (the hex form of the key) into the key and wipes the hex form: after
    [hmac_digest] on a preserving handle the heap has gained exactly two
    buffers, one of zero bytes as long as the hex string, and the key. *)
Theorem setupKey_wipes_hex_form
    (w w1 : world M) (m : M) (val iv akey k data : bytes) (algo : hash_algo) :
  init_hsm w = (Ok (Some m), w1) -> is_ready m = true ->
  hsm_decrypt m val iv 0 = Ok akey -> unhexlify akey = Ok k ->
  exists o2 w2,
    SecretObj.hmac_digest data algo (SecretObj.__init__ val iv None, w) =
      (Ok (hmac_new_digest k data algo), (o2, w2)) /\
    heap w2 = heap w ++ [repeat x00 (length akey); k] /\
    trace w2 = trace w ++ [CallDecrypt val iv 0].
Proof.
  intros Hi Hr Hd Hu.
  destruct (setupKey_materializes w w1 m (SecretObj.__init__ val iv None) akey k
              Hi Hr eq_refl Hd Hu) as (w2 & Hs & Hh & Ht).
  assert (Hc : cached (SecretObj.set_bkey (SecretObj.__init__ val iv None)
                         (Bound (Some (S (length (heap w))))), w2)
                      (S (length (heap w))) k).
  { repeat split. cbn [snd]. rewrite Hh.
    rewrite nth_error_app2 by lia.
    replace (S (length (heap w)) - length (heap w))%nat with 1%nat by lia.
    reflexivity. }
  eexists _, w2. split; [|split; [exact Hh | exact Ht]].
  unfold SecretObj.hmac_digest, bind. rewrite Hs.
  rewrite (bkey_bytes_cached _ _ _ _ Hc).
  unfold SecretObj.self. cbn [fst]. rewrite (clearKey_cached _ _ _ _ Hc).
  unfold str. destruct pver_gt_2_6; reflexivity.
Qed.

(** X9. A handle built with [preserve = false] is good for one operation:
    [hmac_digest] returns the HMAC, overwrites the key buffer with zeros and
    deletes the attribute [bkey]; every later [hmac_digest] or [aes_decrypt]
    on the handle raises AttributeError and changes nothing. *)
Theorem unpreserved_key_single_use
    (w w1 : world M) (m : M) (val iv akey k data : bytes) (algo : hash_algo) :
  init_hsm w = (Ok (Some m), w1) -> is_ready m = true ->
  hsm_decrypt m val iv 0 = Ok akey -> unhexlify akey = Ok k ->
  let missing := AttributeError "'SecretObj' object has no attribute 'bkey'" in
  exists s1,
    SecretObj.hmac_digest data algo (SecretObj.__init__ val iv (Some false), w) =
      (Ok (hmac_new_digest k data algo), s1) /\
    SecretObj.bkey (fst s1) = Deleted /\
    heap (snd s1) = heap w ++ [repeat x00 (length akey); repeat x00 (length k)] /\
    (forall data' algo', SecretObj.hmac_digest data' algo' s1 = (Raise missing, s1)) /\
    (forall data', SecretObj.aes_decrypt data' s1 = (Raise missing, s1)).
Proof.
  intros Hi Hr Hd Hu missing.
  set (o := SecretObj.__init__ val iv (Some false)).
  destruct (setupKey_materializes w w1 m o akey k Hi Hr eq_refl Hd Hu)
    as (w2 & Hs & Hh & Ht).
  set (l := S (length (heap w))) in *.
  assert (Hn : nth_error (heap w2) l = Some k).
  { rewrite Hh. rewrite nth_error_app2 by (unfold l; lia).
    replace (l - length (heap w))%nat with 1%nat by (unfold l; lia). reflexivity. }
  eexists. split.
  - unfold SecretObj.hmac_digest, bind. rewrite Hs.
    unfold SecretObj.bkey_bytes, bind, SecretObj.get_bkey, bind, SecretObj.self.
    cbn [fst snd SecretObj.bkey SecretObj.set_bkey ret].
    unfold SecretObj.in_world at 1. unfold deref. cbn [fst snd]. rewrite Hn.
    cbn [fst].
    change (SecretObj.preserve (SecretObj.set_bkey o (Bound (Some l)))) with false.
    unfold SecretObj._clearKey_, bind, SecretObj.get_bkey, bind, SecretObj.self.
    cbn [negb fst snd SecretObj.bkey SecretObj.set_bkey ret].
    unfold SecretObj.in_world, zerome. cbn [fst snd]. rewrite Hn.
    unfold SecretObj.assign_bkey, ret, str. cbn [fst snd].
    destruct pver_gt_2_6; reflexivity.
  - cbn [fst snd SecretObj.bkey SecretObj.set_bkey heap set_heap].
    split; [reflexivity|]. split.
    + rewrite Hh. unfold l.
      replace (heap w ++ [repeat x00 (length akey); k])
        with ((heap w ++ [repeat x00 (length akey)]) ++ k :: []) 
        by (rewrite <- app_assoc; reflexivity).
      replace (S (length (heap w))) with (length (heap w ++ [repeat x00 (length akey)]))
        by (rewrite length_app; cbn; lia).
      rewrite list_update_middle, <- app_assoc. reflexivity.
    + split; intros; reflexivity.
Qed.

(** X10. The key is cleared only on the way out of a successful operation:
    when [aes_decrypt] on a handle with [preserve = false] fails inside AES
    (a key that is no AES key, or input that is not block-aligned), the
    error is raised with the key still in its buffer and still referenced
    by the handle. *)
Theorem failed_aes_decrypt_keeps_key
    (w w1 : world M) (m : M) (val iv akey k data : bytes) (e : exn) :
  init_hsm w = (Ok (Some m), w1) -> is_ready m = true ->
  hsm_decrypt m val iv 0 = Ok akey -> unhexlify akey = Ok k ->
  (aes <- AES_new k MODE_ECB [] ;; cipher_decrypt aes data) = Raise e ->
  exists s1,
    SecretObj.aes_decrypt data (SecretObj.__init__ val iv (Some false), w) = (Raise e, s1) /\
    SecretObj.bkey (fst s1) = Bound (Some (S (length (heap w)))) /\
    nth_error (heap (snd s1)) (S (length (heap w))) = Some k.
Proof.
  intros Hi Hr Hd Hu He.
  set (o := SecretObj.__init__ val iv (Some false)).
  destruct (setupKey_materializes w w1 m o akey k Hi Hr eq_refl Hd Hu)
    as (w2 & Hs & Hh & Ht).
  set (l := S (length (heap w))) in *.
  assert (Hn : nth_error (heap w2) l = Some k).
  { rewrite Hh. rewrite nth_error_app2 by (unfold l; lia).
    replace (l - length (heap w))%nat with 1%nat by (unfold l; lia). reflexivity. }
  exists (SecretObj.set_bkey o (Bound (Some l)), w2). split; [|split; [reflexivity | exact Hn]].
  unfold SecretObj.aes_decrypt, bind. rewrite Hs.
  unfold SecretObj.bkey_bytes, bind, SecretObj.get_bkey, bind, SecretObj.self.
  cbn [fst snd SecretObj.bkey SecretObj.set_bkey ret].
  unfold SecretObj.in_world at 1. unfold deref. cbn [fst snd]. rewrite Hn.
  unfold lift. destruct (AES_new k MODE_ECB []) as [aes|e'].
  - cbn [rbind] in He. rewrite He. reflexivity.
  - cbn [rbind] in He. now inversion He.
Qed.

(** X11. When the module's decryption of the stored value is not a string
    of hex digits, the first operation raises the TypeError of
    [unhexlify]; the handle is left without a key, and the decrypted string
    stays in memory as it is, not zeroed. *)
Theorem non_hex_secret_is_left_behind
    (w w1 : world M) (m : M) (val iv akey data : bytes) (algo : hash_algo) (e : exn) :
  init_hsm w = (Ok (Some m), w1) -> is_ready m = true ->
  hsm_decrypt m val iv 0 = Ok akey -> unhexlify akey = Raise e ->
  exists w2,
    SecretObj.hmac_digest data algo (SecretObj.__init__ val iv None, w) =
      (Raise e, (SecretObj.__init__ val iv None, w2)) /\
    heap w2 = heap w ++ [akey] /\
    trace w2 = trace w ++ [CallDecrypt val iv 0].
Proof.
  intros Hi Hr Hd Hu.
  destruct (init_hsm_store _ _ _ Hi) as (_ & Hh & Ht).
  eexists. split; [|split].
  - unfold SecretObj.hmac_digest, bind, SecretObj._setupKey_, bind,
      SecretObj.get_bkey, bind, SecretObj.self.
    cbn [fst snd SecretObj.bkey SecretObj.__init__ ret].
    unfold SecretObj.in_world at 1. cbn [fst snd].
    change (SecretObj.val (SecretObj.__init__ val iv None)) with val.
    change (SecretObj.iv (SecretObj.__init__ val iv None)) with iv.
    rewrite (decrypt_ready _ _ _ _ _ _ Hi Hr), Hd.
    unfold SecretObj.in_world, alloc, lift. cbn [fst snd]. rewrite Hu.
    reflexivity.
  - cbn. now rewrite Hh.
  - cbn. now rewrite Ht.
Qed.
End KeyLifecycle.

Lemma setupKey_wipes_hex_form_toy :
  let k := [x6b; x65; x79; x21] in
  exists s,
    @SecretObj.hmac_digest _ _ toy_hmac python_2_7 [x01; x02; x03; x04] SHA1
      (SecretObj.__init__ (toy_crypt (hexlify k) [x2a]) [x2a] None, toy_world []) =
      (Ok [x6a; x67; x7a; x25], s) /\
    heap (snd s) = [repeat x00 8; k].
Proof.
  cbv zeta.
  destruct (@setupKey_wipes_hex_form toy_module toy_security_module toy_hmac python_2_7
              (toy_world []) (toy_world []) {| toy_ready := true; toy_pool := [] |}
              (toy_crypt (hexlify [x6b; x65; x79; x21]) [x2a]) [x2a]
              (hexlify [x6b; x65; x79; x21]) [x6b; x65; x79; x21]
              [x01; x02; x03; x04] SHA1 eq_refl eq_refl eq_refl eq_refl)
    as (o2 & w2 & Hh & Hheap & _).
  exists (o2, w2). split; [exact Hh | exact Hheap].
Defined.

Lemma unpreserved_key_single_use_toy :
  let k := [x6b; x65; x79; x21] in
  exists s,
    @SecretObj.hmac_digest _ _ toy_hmac python_2_7 [x01; x02; x03; x04] SHA1
      (SecretObj.__init__ (toy_crypt (hexlify k) [x2a]) [x2a] (Some false), toy_world []) =
      (Ok [x6a; x67; x7a; x25], s) /\
    heap (snd s) = [repeat x00 8; repeat x00 4] /\
    fst (@SecretObj.hmac_digest _ _ toy_hmac python_2_7 [x01] SHA1 s) =
      Raise (AttributeError "'SecretObj' object has no attribute 'bkey'").
Proof.
  cbv zeta.
  destruct (@unpreserved_key_single_use toy_module toy_security_module xor_cipher
              toy_hmac python_2_7
              (toy_world []) (toy_world []) {| toy_ready := true; toy_pool := [] |}
              (toy_crypt (hexlify [x6b; x65; x79; x21]) [x2a]) [x2a]
              (hexlify [x6b; x65; x79; x21]) [x6b; x65; x79; x21]
              [x01; x02; x03; x04] SHA1 eq_refl eq_refl eq_refl eq_refl)
    as (s & Hh & _ & Hheap & Hagain & _).
  exists s. split; [exact Hh|]. split; [exact Hheap|]. now rewrite Hagain.
Defined.

Lemma failed_aes_decrypt_keeps_key_toy :
  let k := [x6b; x65; x79; x21] in
  exists s,
    @SecretObj.aes_decrypt _ _ xor_cipher (repeat x00 16)
      (SecretObj.__init__ (toy_crypt (hexlify k) [x2a]) [x2a] (Some false), toy_world []) =
      (Raise (ValueError "AES key must be either 16, 24, or 32 bytes long"), s) /\
    nth_error (heap (snd s)) 1 = Some k.
Proof.
  cbv zeta.
  destruct (@failed_aes_decrypt_keeps_key toy_module toy_security_module xor_cipher
              (toy_world []) (toy_world []) {| toy_ready := true; toy_pool := [] |}
              (toy_crypt (hexlify [x6b; x65; x79; x21]) [x2a]) [x2a]
              (hexlify [x6b; x65; x79; x21]) [x6b; x65; x79; x21] (repeat x00 16)
              (ValueError "AES key must be either 16, 24, or 32 bytes long")
              eq_refl eq_refl eq_refl eq_refl eq_refl)
    as (s & Hd & _ & Hn).
  exists s. split; [exact Hd | exact Hn].
Defined.

Lemma non_hex_secret_is_left_behind_toy :
  exists w2,
    @SecretObj.hmac_digest _ _ toy_hmac python_2_7 [x01] SHA1
      (SecretObj.__init__ (toy_crypt [x7a; x7a] [x2a]) [x2a] None, toy_world []) =
      (Raise (TypeError "Non-hexadecimal digit found"),
       (SecretObj.__init__ (toy_crypt [x7a; x7a] [x2a]) [x2a] None, w2)) /\
    heap w2 = [[x7a; x7a]].
Proof.
  destruct (@non_hex_secret_is_left_behind toy_module toy_security_module
              toy_hmac python_2_7
              (toy_world []) (toy_world []) {| toy_ready := true; toy_pool := [] |}
              (toy_crypt [x7a; x7a] [x2a]) [x2a] [x7a; x7a] [x01] SHA1
              (TypeError "Non-hexadecimal digit found")
              eq_refl eq_refl eq_refl eq_refl)
    as (w2 & Hd & Hheap & _).
  exists w2. split; [exact Hd | exact Hheap].
Defined.

(** ** urandom: randint, choice and randrange *)

Section UrandomMore.
Context {M : Type} {SM : SecurityModule M}.

(** X12. On integers [randint] does not depend on the order of its bounds:
    when [end] lies below [start] the two are swapped. *)
Theorem randint_symmetric (a b : Z) (w : world M) :
  urandom.randint (PyInt a) (Some (PyInt b)) w =
  urandom.randint (PyInt b) (Some (PyInt a)) w.
Proof.
  unfold urandom.randint, bind, lift, num_sub, num_mul, num_arith, num_neg, ret.
  destruct (Z.lt_trichotomy a b) as [Hlt | [-> | Hgt]]; [| reflexivity |].
  - replace (b - a <? 0) with false by (symmetry; apply Z.ltb_ge; lia).
    replace (a - b <? 0) with true by (symmetry; apply Z.ltb_lt; lia).
    replace ((a - b) * -1) with (b - a) by lia. reflexivity.
  - replace (b - a <? 0) with true by (symmetry; apply Z.ltb_lt; lia).
    replace (a - b <? 0) with false by (symmetry; apply Z.ltb_ge; lia).
    replace ((b - a) * -1) with (a - b) by lia. reflexivity.
Qed.

Lemma getitem_In {A} (array : list A) (idx : Z) (x : A) :
  urandom.getitem array idx = Ok x -> In x array.
Proof.
  unfold urandom.getitem.
  destruct ((_ <? 0) || (_ <=? _)); [discriminate|].
  destruct (nth_error array _) as [y|] eqn:E; [|discriminate].
  intros Hx. inversion Hx. subst. eapply nth_error_In. exact E.
Qed.

Lemma choice_returns_member {A} (array : list A) (w w' : world M) (x : A) :
  urandom.choice array w = (Ok x, w') -> In x array.
Proof.
  unfold urandom.choice, bind, lift.
  destruct (urandom.randint _ _ w) as [[idx|e] w1]; [|discriminate].
  destruct (urandom.getitem array idx) eqn:E; [|discriminate].
  intros Hx. inversion Hx. subst. eapply getitem_In. exact E.
Qed.

(** X13. Whatever [choice] returns is an element of the sequence; on the
    empty sequence it never returns a value. *)
Theorem choice_in_array {A} (array : list A) (w w' : world M) (x : A) :
  urandom.choice array w = (Ok x, w') -> In x array /\ array <> [].
Proof.
  intros Hc. apply choice_returns_member in Hc. split; [exact Hc|].
  intros ->. contradiction.
Qed.

Lemma py_range_In (start stop step : Z) (l : list Z) (x : Z) :
  py_range start stop step = Ok l -> In x l ->
  (x - start) mod step = 0 /\
  (0 < step -> start <= x < stop) /\
  (step < 0 -> stop < x <= start).
Proof.
  unfold py_range. destruct (step =? 0) eqn:E0; [discriminate|].
  apply Z.eqb_neq in E0. intros Hl Hin. inversion Hl. subst l. clear Hl.
  apply in_map_iff in Hin. destruct Hin as (i & <- & Hi).
  apply in_seq in Hi.
  split; [|split].
  - replace (start + Z.of_nat i * step - start) with (Z.of_nat i * step) by lia.
    apply Z.mod_mul. exact E0.
  - intros Hs. replace (0 <? step) with true in Hi by (symmetry; apply Z.ltb_lt; lia).
    destruct (start <? stop) eqn:E; [|simpl in Hi; lia].
    apply Z.ltb_lt in E.
    assert (Hq : Z.of_nat i <= (stop - start - 1) / step).
    { pose proof (Z.div_pos (stop - start - 1) step ltac:(lia) ltac:(lia)). lia. }
    pose proof (Z.mul_div_le (stop - start - 1) step ltac:(lia)).
    nia.
  - intros Hs. replace (0 <? step) with false in Hi by (symmetry; apply Z.ltb_ge; lia).
    destruct (stop <? start) eqn:E; [|simpl in Hi; lia].
    apply Z.ltb_lt in E.
    assert (Hq : Z.of_nat i <= (start - stop - 1) / (- step)).
    { pose proof (Z.div_pos (start - stop - 1) (- step) ltac:(lia) ltac:(lia)). lia. }
    pose proof (Z.mul_div_le (start - stop - 1) (- step) ltac:(lia)).
    nia.
Qed.

(** X14. A value returned by [randrange(start, stop, step)] lies on the
    grid [start + i * step] and inside the half-open range: in
    [start, stop) for a positive step, in (stop, start] for a negative one;
    a zero step raises ValueError. *)
Theorem randrange_in_range (start stop step : Z) (w w' : world M) (x : Z) :
  randrange start (Some stop) step w = (Ok x, w') ->
  step <> 0 /\
  (x - start) mod step = 0 /\
  (0 < step -> start <= x < stop) /\
  (step < 0 -> stop < x <= start).
Proof.
  unfold randrange, bind, lift.
  destruct (py_range start stop step) as [l|e] eqn:E; [|discriminate].
  intros Hc. apply choice_returns_member in Hc.
  split.
  - intros ->. unfold py_range in E. discriminate.
  - eapply py_range_In; eassumption.
Qed.
End UrandomMore.

Lemma choice_in_array_toy :
  exists w', urandom.choice [1; 2; 3] (toy_world [x80]) = (Ok 2, w') /\ In 2 [1; 2; 3].
Proof.
  assert (Hrun : urandom.choice [1; 2; 3] (toy_world [x80]) =
                 (Ok 2, snd (urandom.choice [1; 2; 3] (toy_world [x80]))))
    by (vm_compute; reflexivity).
  eexists. split; [exact Hrun | exact (proj1 (choice_in_array _ _ _ _ Hrun))].
Defined.

Lemma randrange_in_range_toy :
  exists w', randrange 1 (Some 11) 3 (toy_world [x80]) = (Ok 7, w') /\
             (7 - 1) mod 3 = 0 /\ 1 <= 7 < 11.
Proof.
  assert (Hrun : randrange 1 (Some 11) 3 (toy_world [x80]) =
                 (Ok 7, snd (randrange 1 (Some 11) 3 (toy_world [x80]))))
    by (vm_compute; reflexivity).
  destruct (randrange_in_range _ _ _ _ _ _ Hrun) as (_ & Hm & Hp & _).
  eexists. split; [exact Hrun|]. split; [exact Hm | exact (Hp eq_refl)].
Defined.

(** ** get_alphanum_str *)

Lemma getitem_in_bounds {A} (array : list A) (i : Z) :
  0 <= i < len array -> exists x, urandom.getitem array i = Ok x /\ In x array.
Proof.
  intros Hi. unfold urandom.getitem.
  replace (i <? 0) with false by (symmetry; apply Z.ltb_ge; lia).
  replace ((i <? 0) || (len array <=? i)) with false
    by (symmetry; apply orb_false_iff; split; [apply Z.ltb_ge | apply Z.leb_gt]; lia).
  destruct (nth_error array (Z.to_nat i)) as [x|] eqn:E.
  - exists x. split; [reflexivity | eapply nth_error_In; exact E].
  - apply nth_error_None in E. unfold len in Hi. lia.
Qed.

Lemma is_alnum_In (c : byte) : In c ascii_letters_digits -> is_alnum c = true.
Proof.
  intros Hin. unfold is_alnum. apply existsb_exists. exists c.
  split; [exact Hin | now apply Byte.byte_dec_lb].
Qed.

Section AlphanumFacts.
Context {G : Type} {R : PyRandom G} {RL : PyRandomLaws R}.

Lemma alphanum_loop_spec (n : nat) : forall (ret : bytes) (g : G),
  exists s g',
    alphanum_loop n ret g = (Ok (ret ++ s), g') /\
    length s = n /\ forallb is_alnum s = true.
Proof.
  induction n as [|n IH]; intros ret0 g.
  - exists [], g. rewrite app_nil_r. repeat split.
  - cbn [alphanum_loop]. unfold bind, random_choice.
    pose proof (random_below_range g (len ascii_letters_digits) eq_refl) as Hr.
    destruct (random_below g (len ascii_letters_digits)) as [i g1]. cbn [fst] in Hr.
    destruct (getitem_in_bounds ascii_letters_digits i Hr) as (c & -> & Hin).
    destruct (IH (ret0 ++ [c]) g1) as (s & g' & Hl & Hlen & Hal).
    exists (c :: s), g'. rewrite Hl, <- app_assoc. repeat split.
    + cbn. now rewrite Hlen.
    + cbn [forallb]. now rewrite (is_alnum_In c Hin), Hal.
Qed.

(** X15. [get_alphanum_str(length)] returns exactly [length] characters
    (none for a negative [length]), each a letter or a digit. *)
Theorem get_alphanum_str_spec (length : Z) (g : G) :
  exists s g',
    get_alphanum_str length g = (Ok s, g') /\
    len s = Z.max 0 length /\ forallb is_alnum s = true.
Proof.
  unfold get_alphanum_str.
  destruct (alphanum_loop_spec (Z.to_nat length) [] g) as (s & g' & Hl & Hlen & Hal).
  exists s, g'. split; [exact Hl|]. split; [unfold len; lia | exact Hal].
Qed.
End AlphanumFacts.

Lemma lcg_laws : PyRandomLaws lcg.
Proof. split. intros g n Hn. cbn. apply Z.mod_pos_bound. exact Hn. Qed.

Lemma get_alphanum_str_lcg :
  exists s, fst (@get_alphanum_str Z lcg 16 2018) = Ok s /\ len s = 16.
Proof.
  destruct (@get_alphanum_str_spec Z lcg lcg_laws 16 2018) as (s & g' & Hr & Hl & _).
  exists s. rewrite Hr. split; [reflexivity | exact Hl].
Defined.

(** ** Sign: failures *)

Section SignFailures.
Context {R : RSA}.

End SignFailures.


Lemma verify_sign_raw_rsa_toy :
  Sign.sign true toy_keys msg = Ok (format_d 1431) /\
  Sign.verify true toy_keys msg (format_d 1431) = true.
Proof.
  apply (@verify_sign_raw_rsa toy_rsa toy_keys msg 2753 17 1431).
  - reflexivity.
  - reflexivity.
  - vm_compute. reflexivity.
  - lia.
  - vm_compute. reflexivity.
Defined.

(** ** Passwords and PINs *)

Section PasswordFacts.
Context {M : Type} {SM : SecurityModule M} {PM : PasswordModule M} {U : Utils}.

(** X17. [encryptPassword] and [decryptPassword] turn every exception of
    the module's password methods (and of [to_utf8]) into a marker string
    that they return, while [encryptPin] and [decryptPin] let the module's
    exception through; on a module that is not set up all four raise
    "hsm not ready!". *)
Theorem password_errors_become_markers
    (w w1 : world M) (m : M) (password : pystring) (crypt : bytes) (e : exn) :
  init_hsm w = (Ok (Some m), w1) ->
  (is_ready m = true ->
   ((p <- to_utf8 password ;; encrypt_password m p) = Raise e ->
    encryptPassword password w = (Ok FAILED_TO_ENCRYPT_PASSWORD, w1)) /\
   (decrypt_password m crypt = Raise e ->
    decryptPassword crypt false w = (Ok (Str FAILED_TO_DECRYPT_PASSWORD), w1)) /\
   (encrypt_pin m crypt = Raise e -> encryptPin crypt w = (Raise e, w1)) /\
   (decrypt_pin m crypt = Raise e -> decryptPin crypt w = (Raise e, w1))) /\
  (is_ready m = false ->
   let not_ready := HSMException "hsm not ready!" in
   encryptPassword password w = (Raise not_ready, w1) /\
   decryptPassword crypt false w = (Raise not_ready, w1) /\
   encryptPin crypt w = (Raise not_ready, w1) /\
   decryptPin crypt w = (Raise not_ready, w1)).
Proof.
  intros Hi. split.
  - intros Hr. pose proof (get_hsm_ready _ _ _ Hi Hr) as Hg.
    repeat split; intros Hf.
    + unfold encryptPassword, bind. rewrite Hg. unfold ret. now rewrite Hf.
    + unfold decryptPassword, bind. rewrite Hg. unfold ret. now rewrite Hf.
    + unfold encryptPin, bind. rewrite Hg. unfold lift. now rewrite Hf.
    + unfold decryptPin, bind. rewrite Hg. unfold lift. now rewrite Hf.
  - intros Hn not_ready.
    assert (Hg : get_hsm true w = (Raise not_ready, w1)).
    { unfold get_hsm, bind. rewrite Hi, Hn. reflexivity. }
    repeat split.
    + unfold encryptPassword, bind. now rewrite Hg.
    + unfold decryptPassword, bind. now rewrite Hg.
    + unfold encryptPin, bind. now rewrite Hg.
    + unfold decryptPin, bind. now rewrite Hg.
Qed.

(** X18. With the module set up, a password that [encryptPassword]
    encrypted is given back by [decryptPassword] as the UTF-8 bytes of the
    password, provided the module's [decrypt_password] inverts its
    [encrypt_password] there; with [convert_unicode] the bytes are passed
    through [to_unicode], and kept as bytes when that conversion fails. *)
Theorem decryptPassword_encryptPassword
    (w w1 : world M) (m : M) (password : pystring) (u c : bytes) :
  init_hsm w = (Ok (Some m), w1) -> is_ready m = true ->
  to_utf8 password = Ok u -> encrypt_password m u = Ok c ->
  decrypt_password m c = Ok u ->
  encryptPassword password w = (Ok c, w1) /\
  decryptPassword c false w1 = (Ok (Str u), w1) /\
  decryptPassword c true w1 =
    (Ok (match to_unicode u with Ok t => Text t | Raise _ => Str u end), w1).
Proof.
  intros Hi Hr Hu He Hd.
  pose proof (get_hsm_ready _ _ _ Hi Hr) as Hg.
  destruct (init_hsm_store _ _ _ Hi) as (Hs & _ & _).
  pose proof (get_hsm_present w1 m true Hs Hr) as Hg1.
  split; [|split].
  - unfold encryptPassword, bind. rewrite Hg. unfold ret. rewrite Hu. cbn [rbind].
    now rewrite He.
  - unfold decryptPassword, bind. rewrite Hg1. unfold ret. now rewrite Hd.
  - unfold decryptPassword, bind. rewrite Hg1. unfold ret. rewrite Hd.
    cbn [try_except]. destruct (to_unicode u); reflexivity.
Qed.
End PasswordFacts.

Lemma password_errors_become_markers_toy :
  fst (@decryptPassword _ _ toy_password_module toy_utils [] false (toy_world []))
    = Ok (Str FAILED_TO_DECRYPT_PASSWORD) /\
  fst (@decryptPin _ _ toy_password_module [] (toy_world []))
    = Raise (ValueError "empty ciphertext").
Proof.
  destruct (@password_errors_become_markers toy_module toy_security_module
              toy_password_module toy_utils (toy_world []) (toy_world [])
              {| toy_ready := true; toy_pool := [] |} msg []
              (ValueError "empty ciphertext") eq_refl) as [Hready _].
  destruct (Hready eq_refl) as (_ & Hd & _ & Hp).
  rewrite (Hd eq_refl), (Hp eq_refl). split; reflexivity.
Defined.

Lemma decryptPassword_encryptPassword_toy :
  fst (@encryptPassword _ _ toy_password_module toy_utils msg (toy_world []))
    = Ok [x67; x73; x6d] /\
  fst (@decryptPassword _ _ toy_password_module toy_utils [x67; x73; x6d] true (toy_world []))
    = Ok msg.
Proof.
  destruct (@decryptPassword_encryptPassword toy_module toy_security_module
              toy_password_module toy_utils (toy_world []) (toy_world [])
              {| toy_ready := true; toy_pool := [] |} msg
              [x6d; x73; x67] [x67; x73; x6d]
              eq_refl eq_refl eq_refl eq_refl eq_refl) as (He & _ & Hd).
  rewrite He, Hd. split; reflexivity.
Defined.

(** ** create_hsm_object *)

Lemma dict_get_set_same {V} (d : dict V) (k : string) (v : V) :
  dict_get (dict_set d k v) k = Some v.
Proof.
  induction d as [|[k' v'] d IH]; cbn.
  - now rewrite String.eqb_refl.
  - destruct (String.eqb k k') eqn:E; cbn.
    + now rewrite String.eqb_refl.
    + now rewrite E.
Qed.

Lemma dict_get_set_other {V} (d : dict V) (k k' : string) (v : V) :
  k' <> k -> dict_get (dict_set d k v) k' = dict_get d k'.
Proof.
  intros Hne. induction d as [|[k0 v0] d IH]; cbn.
  - apply String.eqb_neq in Hne. now rewrite Hne.
  - destruct (String.eqb k k0) eqn:E; cbn.
    + apply String.eqb_eq in E. subst k0.
      apply String.eqb_neq in Hne. now rewrite Hne.
    + destruct (String.eqb k' k0); [reflexivity | exact IH].
Qed.

Section LoaderFacts.
Context {M : Type}.
Variable get_module_class :
  string -> string -> string -> result (dict (option string) -> result M).

Local Abbreviation param_name key :=
  (lower (string_drop (String.length PI_HSM_MODULE_) key)).

Local Abbreviation step :=
  (fun (params : dict (option string)) (kv : string * string) =>
     if String.prefix PI_HSM_MODULE_ (fst kv)
     then dict_set params (param_name (fst kv)) (Some (snd kv))
     else params).

Lemma hsm_parameters_sound (cfg : config) : forall acc p v,
  dict_get (fold_left step cfg acc) p = Some v ->
  dict_get acc p = Some v \/
  exists key value,
    In (key, value) cfg /\ String.prefix PI_HSM_MODULE_ key = true /\
    param_name key = p /\ v = Some value.
Proof.
  induction cfg as [|[key value] cfg IH]; intros acc p v Hg; [now left|].
  cbn [fold_left] in Hg. apply IH in Hg. destruct Hg as [Hg | (k & x & Hin & Hp & Hn & Hv)].
  - cbn [fst snd] in Hg.
    destruct (String.prefix PI_HSM_MODULE_ key) eqn:E; [|now left].
    destruct (String.eqb p (param_name key)) eqn:Ep.
    + apply String.eqb_eq in Ep. subst p. rewrite dict_get_set_same in Hg.
      right. exists key, value. repeat split; [now left | exact E | congruence].
    + apply String.eqb_neq in Ep. rewrite dict_get_set_other in Hg by exact Ep.
      now left.
  - right. exists k, x. repeat split; auto. now right.
Qed.

Lemma hsm_parameters_keep (cfg : config) : forall acc p,
  dict_get acc p <> None -> dict_get (fold_left step cfg acc) p <> None.
Proof.
  induction cfg as [|[key value] cfg IH]; intros acc p Hg; [exact Hg|].
  cbn [fold_left]. apply IH. cbn [fst snd].
  destruct (String.prefix PI_HSM_MODULE_ key); [|exact Hg].
  destruct (String.eqb p (param_name key)) eqn:Ep.
  - apply String.eqb_eq in Ep. subst p. rewrite dict_get_set_same. discriminate.
  - apply String.eqb_neq in Ep. now rewrite dict_get_set_other.
Qed.

Lemma hsm_parameters_complete (cfg : config) : forall acc key value,
  In (key, value) cfg -> String.prefix PI_HSM_MODULE_ key = true ->
  dict_get (fold_left step cfg acc) (param_name key) <> None.
Proof.
  induction cfg as [|[k x] cfg IH]; intros acc key value Hin Hp; [contradiction|].
  cbn [fold_left]. destruct Hin as [Heq | Hin].
  - inversion Heq. subst k x. apply hsm_parameters_keep. cbn [fst snd].
    rewrite Hp, dict_get_set_same. discriminate.
  - eapply IH; eassumption.
Qed.


End LoaderFacts.



(** ** hash_with_pepper / verify_with_pepper *)

Section PepperFacts.
Context {G : Type} {P : Passlib G} {PL : PasslibLaws P}.

End PepperFacts.

Lemma toy_passlib_laws : PasslibLaws toy_passlib.
Proof.
  split. intros g secret rounds salt_size. cbn.
  rewrite rev_app_distr. cbn. rewrite rev_involutive.
  f_equal. now apply bytes_eqb_eq.
Qed.

